(** * run.py: the fine-tuning driver

    A shallow embedding of [src/run.py].  The script is orchestration code:
    it parses six command-line options, then performs a fixed sequence of
    calls into external packages (transformers, peft, torch, and the
    project modules [model] and [util]).  The embedding therefore has three
    layers:

    - Python values and the object store shared between the script and the
      packages it calls;
    - programs: the operations [run] and [main] perform, in order, with the
      answers of the external packages left open;
    - an executable semantics that runs a program against an arbitrary
      environment (a function answering every external call with a value or
      an exception) and records the trace of what was done.

    Theorems quantify over every environment, so they hold whatever the
    external packages do. *)

From Stdlib Require Import ZArith List Ascii String Floats.PrimFloat.
From stdpp Require Import gmap strings list.
Import ListNotations.

Local Open Scope string_scope.
Local Open Scope list_scope.
Local Open Scope Z_scope.

(** ** Python values *)

(** Identity of an object owned by an external package. *)
Abbreviation handle := positive (only parsing).

#[warnings="-register-all"]
Inductive value : Type :=
| VNone
| VBool (b : bool)
| VInt (n : Z)
| VFloat (x : float)
| VStr (s : string)
| VList (xs : list value)
| VAttr (qualname : string)           (* a module-level constant: [torch.float16], [TaskType.CAUSAL_LM] *)
| VObj (h : handle)                   (* an object living in the store *)
| VNullContext                        (* [contextlib.nullcontext()] *)
| VProfilerCallback (profiler : value). (* an instance of the local class [ProfilerCallback] *)

Inductive exn : Type :=
| SystemExit                          (* raised by argparse: help text or usage error *)
| PyExc (cls : string) (msg : string).

(** Keyword arguments and dict literals keep their insertion order. *)
Abbreviation kwargs := (list (string * value)) (only parsing).

Fixpoint lookup_kw (k : string) (kw : list (string * value)) : option value :=
  match kw with
  | [] => None
  | (k', v) :: rest => if String.eqb k k' then Some v else lookup_kw k rest
  end.

(** The object store: every object is a bag of named attributes.  Reading
    an attribute an object does not have raises; assigning creates it. *)
Abbreviation heap := (gmap positive (gmap string value)) (only parsing).

Definition getattr (hp : heap) (o : value) (name : string) : value + exn :=
  match o with
  | VObj h =>
      match hp !! h ≫= (.!! name) with
      | Some v => inl v
      | None => inr (PyExc "AttributeError" name)
      end
  | _ => inr (PyExc "AttributeError" name)
  end.

Definition setattr (hp : heap) (o : value) (name : string) (v : value) : heap + exn :=
  match o with
  | VObj h => inl (<[h := <[name := v]> (default ∅ (hp !! h))]> hp)
  | _ => inr (PyExc "AttributeError" name)
  end.

(** Truth value of the result of [__exit__]. *)
Definition truthy (v : value) : bool :=
  match v with
  | VNone => false
  | VBool b => b
  | VInt n => negb (n =? 0)
  | VFloat x => negb (PrimFloat.eqb x 0%float)
  | VStr s => negb (String.eqb s "")
  | VList xs => match xs with [] => false | _ => true end
  | _ => true
  end.

(** ** Programs *)

Inductive callee : Type :=
| Fn (qualname : string)                 (* a class or function of an external package *)
| Method (self : value) (name : string). (* a method of an object *)

Record call : Type := Call {
  target : callee;
  posargs : list value;
  kwds : list (string * value)
}.

(** What the script asks of the outside world. *)
Inductive action : Type :=
| ACall (c : call)
| AImport (module : string) (names : list string)
| AEnter (cm : value)
| AExit (cm : value) (exc : option exn).

Inductive Prog (A : Type) : Type :=
| Ret (a : A)
| Throw (e : exn)
| Invoke (c : call) (k : value -> Prog A)
| Import (module : string) (names : list string) (k : Prog A)
| GetAttr (o : value) (name : string) (k : value -> Prog A)
| SetAttr (o : value) (name : string) (v : value) (k : Prog A)
| With (cm : value) (body : Prog unit) (k : Prog A).

Arguments Ret {A} a.
Arguments Throw {A} e.
Arguments Invoke {A} c k.
Arguments Import {A} module names k.
Arguments GetAttr {A} o name k.
Arguments SetAttr {A} o name v k.
Arguments With {A} cm body k.

Fixpoint bind {A B : Type} (p : Prog A) (f : A -> Prog B) : Prog B :=
  match p with
  | Ret a => f a
  | Throw e => Throw e
  | Invoke c k => Invoke c (fun v => bind (k v) f)
  | Import m ns k => Import m ns (bind k f)
  | GetAttr o n k => GetAttr o n (fun v => bind (k v) f)
  | SetAttr o n v k => SetAttr o n v (bind k f)
  | With cm body k => With cm body (bind k f)
  end.

(** Programs are sequenced with stdpp's monad notation: [x ← p; q]. *)
#[global] Instance Prog_ret : MRet Prog := @Ret.
#[global] Instance Prog_bind : MBind Prog := fun A B f p => bind p f.

Definition invoke (f : callee) (args : list value) (kw : list (string * value)) : Prog value :=
  Invoke (Call f args kw) Ret.
Definition import_from (module : string) (names : list string) : Prog unit :=
  Import module names (Ret tt).
Definition get (o : value) (name : string) : Prog value := GetAttr o name Ret.
Definition set (o : value) (name : string) (v : value) : Prog unit := SetAttr o name v (Ret tt).
Definition with_ (cm : value) (body : Prog unit) : Prog unit := With cm body (Ret tt).

(** ** Semantics *)

Inductive outcome (A : Type) : Type :=
| Returned (a : A)
| Raised (e : exn).
Arguments Returned {A} a.
Arguments Raised {A} e.

(** One entry of the trace.  An external action records the store as it
    was when the action started, and how the environment answered. *)
Inductive event : Type :=
| EAct (a : action) (before : gmap positive (gmap string value)) (r : value + exn)
| EGet (o : value) (name : string) (r : value + exn)
| ESet (o : value) (name : string) (v : value) (r : option exn).

Section Semantics.
(** [W] is whatever state the external packages keep to themselves;
    [world] answers an action and may change the store and that state. *)
Context {W : Type}.
Variable world : action -> heap -> W -> (value + exn) * heap * W.

Definition is_context_manager (cm : value) : bool :=
  match cm with VObj _ => true | _ => false end.

Fixpoint exec {A : Type} (p : Prog A) (hp : heap) (w : W)
  : list event * (heap * W) * outcome A :=
  match p with
  | Ret a => ([], (hp, w), Returned a)
  | Throw e => ([], (hp, w), Raised e)
  | Invoke c k =>
      let '(r, hp', w') := world (ACall c) hp w in
      match r with
      | inl v => let '(tr, s, o) := exec (k v) hp' w' in (EAct (ACall c) hp r :: tr, s, o)
      | inr e => ([EAct (ACall c) hp r], (hp', w'), Raised e)
      end
  | Import m ns k =>
      let '(r, hp', w') := world (AImport m ns) hp w in
      match r with
      | inl _ => let '(tr, s, o) := exec k hp' w' in (EAct (AImport m ns) hp r :: tr, s, o)
      | inr e => ([EAct (AImport m ns) hp r], (hp', w'), Raised e)
      end
  | GetAttr o n k =>
      match getattr hp o n with
      | inl v => let '(tr, s, out) := exec (k v) hp w in (EGet o n (inl v) :: tr, s, out)
      | inr e => ([EGet o n (inr e)], (hp, w), Raised e)
      end
  | SetAttr o n v k =>
      match setattr hp o n v with
      | inl hp' => let '(tr, s, out) := exec k hp' w in (ESet o n v None :: tr, s, out)
      | inr e => ([ESet o n v (Some e)], (hp, w), Raised e)
      end
  | With cm body k =>
      match cm with
      | VNullContext =>
          (* [nullcontext]: entering and leaving do nothing, nothing is suppressed *)
          let '(tr1, (hp1, w1), o1) := exec body hp w in
          match o1 with
          | Returned _ => let '(tr2, s, o2) := exec k hp1 w1 in (tr1 ++ tr2, s, o2)
          | Raised e => (tr1, (hp1, w1), Raised e)
          end
      | _ =>
          if negb (is_context_manager cm) then
            ([], (hp, w), Raised (PyExc "TypeError" "context manager protocol"))
          else
          let '(r0, hp0, w0) := world (AEnter cm) hp w in
          match r0 with
          | inr e => ([EAct (AEnter cm) hp r0], (hp0, w0), Raised e)
          | inl _ =>
              let '(tr1, (hp1, w1), o1) := exec body hp0 w0 in
              let exc := match o1 with Returned _ => None | Raised e => Some e end in
              let '(r2, hp2, w2) := world (AExit cm exc) hp1 w1 in
              let pre := EAct (AEnter cm) hp r0 :: tr1 ++ [EAct (AExit cm exc) hp1 r2] in
              match r2, exc with
              | inr e', _ => (pre, (hp2, w2), Raised e')
              | inl v, Some e =>
                  if truthy v
                  then let '(tr2, s, o2) := exec k hp2 w2 in (pre ++ tr2, s, o2)
                  else (pre, (hp2, w2), Raised e)
              | inl _, None => let '(tr2, s, o2) := exec k hp2 w2 in (pre ++ tr2, s, o2)
              end
          end
      end
  end.

Definition trace_of {A} (r : list event * (heap * W) * outcome A) : list event := r.1.1.
Definition outcome_of {A} (r : list event * (heap * W) * outcome A) : outcome A := r.2.
End Semantics.

(** ** The command line *)

(** The interpreter's built-in conversions that [argparse] relies on:
    [int(s)] and [float(s)] ([None] stands for [ValueError]), and the
    parser's negative-number matcher (the regular expression
    [^-\d+$|^-\d*\.\d+$]). *)
Record builtins : Type := Builtins {
  py_int : string -> option Z;
  py_float : string -> option float;
  negative_number_like : string -> bool
}.

(** The namespace [parse_args] returns: one attribute per [add_argument]. *)
Record Namespace : Type := mkNamespace {
  batch_size : Z;
  load_in_8bit : bool;
  output_dir : string;
  model_id : string;
  dataset_id : string;
  alpha : float
}.

Module Argparse.

(** The options of the parser built in [main], in registration order;
    [ArgumentParser()] itself registers [-h/--help]. *)
Inductive opt : Type :=
| opt_help | opt_batch_size | opt_load_in_8bit | opt_output_dir
| opt_model_id | opt_dataset_id | opt_alpha.

Definition opt_eqb (a b : opt) : bool :=
  match a, b with
  | opt_help, opt_help | opt_batch_size, opt_batch_size
  | opt_load_in_8bit, opt_load_in_8bit | opt_output_dir, opt_output_dir
  | opt_model_id, opt_model_id | opt_dataset_id, opt_dataset_id
  | opt_alpha, opt_alpha => true
  | _, _ => false
  end.

Definition option_string_actions : list (string * opt) :=
  [ ("-h", opt_help); ("--help", opt_help);
    ("--batch_size", opt_batch_size);
    ("--load_in_8bit", opt_load_in_8bit);
    ("--output_dir", opt_output_dir);
    ("--model_id", opt_model_id);
    ("--dataset_id", opt_dataset_id);
    ("--alpha", opt_alpha) ].

(** The [default=] of every argument ([store_true] defaults to [False]). *)
Definition defaults : Namespace :=
  {| batch_size := 8;
     load_in_8bit := false;
     output_dir := "tmp";
     model_id := "codellama/CodeLlama-7b-hf";
     dataset_id := "zhaospei/cmg_allinone";
     alpha := 0.5%float |}.

Fixpoint find_option (s : string) (table : list (string * opt)) : option opt :=
  match table with
  | [] => None
  | (os, o) :: rest => if String.eqb s os then Some o else find_option s rest
  end.

(** [s.split('=', 1)] when ['=' in s]. *)
Fixpoint split_eq (s : string) : option (string * string) :=
  match s with
  | EmptyString => None
  | String c rest =>
      if Ascii.eqb c "="%char then Some (EmptyString, rest)
      else match split_eq rest with
           | Some (a, b) => Some (String c a, b)
           | None => None
           end
  end.

Fixpoint has_space (s : string) : bool :=
  match s with
  | EmptyString => false
  | String c rest => Ascii.eqb c " "%char || has_space rest
  end.

Inductive arg_class : Type :=
| Positional                                  (* pattern 'A' *)
| Optional (o : opt) (explicit : option string) (* pattern 'O', a known option *)
| Unknown                                     (* pattern 'O', no such option *)
| Ambiguous.                                  (* usage error *)

(** [_get_option_tuples], for an argument that starts with a dash and
    has at least two characters. *)
Definition get_option_tuples (s : string) : list (opt * option string) :=
  match s with
  | String _ (String c1 _) =>
      if Ascii.eqb c1 "-"%char then
        (* two prefix characters: abbreviations, split at the '=' *)
        let '(option_prefix, explicit_arg) :=
          match split_eq s with
          | Some (a, b) => (a, Some b)
          | None => (s, None)
          end in
        omap (fun '(os, o) =>
                if String.prefix option_prefix os then Some (o, explicit_arg) else None)
             option_string_actions
      else
        (* a single dash: a one-letter option glued to its argument *)
        let short_option_prefix := substring 0 2 s in
        let short_explicit_arg := substring 2 (String.length s - 2) s in
        omap (fun '(os, o) =>
                if String.eqb os short_option_prefix then Some (o, Some short_explicit_arg)
                else if String.prefix s os then Some (o, None)
                else None)
             option_string_actions
  | _ => []
  end.

Section Parse.
Variable py : builtins.

(** [_parse_optional]. *)
Definition parse_optional (s : string) : arg_class :=
  match s with
  | EmptyString => Positional
  | String c0 rest =>
      if negb (Ascii.eqb c0 "-"%char) then Positional
      else match find_option s option_string_actions with
      | Some o => Optional o None
      | None =>
          match rest with
          | EmptyString => Positional
          | _ =>
              let split_hit :=
                match split_eq s with
                | Some (os, explicit_arg) =>
                    match find_option os option_string_actions with
                    | Some o => Some (Optional o (Some explicit_arg))
                    | None => None
                    end
                | None => None
                end in
              match split_hit with
              | Some r => r
              | None =>
                  match get_option_tuples s with
                  | _ :: _ :: _ => Ambiguous
                  | [(o, explicit_arg)] => Optional o explicit_arg
                  | [] =>
                      if negative_number_like py s then Positional
                      else if has_space s then Positional
                      else Unknown
                  end
              end
          end
      end
  end.

(** An argument string an option may take as its value: pattern 'A'
    before any ["--"]. *)
Definition is_value (s : string) : bool :=
  negb (String.eqb s "--") &&
  match parse_optional s with Positional => true | _ => false end.

Inductive parse_outcome : Type :=
| Parsed (ns : Namespace)
| ParserExit.  (* help was printed or a usage error reported: [SystemExit] *)

(** [type=] conversion followed by the [store] action. *)
Definition store (o : opt) (s : string) (ns : Namespace) : option Namespace :=
  match o with
  | opt_batch_size =>
      n ← py_int py s;
      Some (mkNamespace n (load_in_8bit ns) (output_dir ns) (model_id ns) (dataset_id ns) (alpha ns))
  | opt_output_dir =>
      Some (mkNamespace (batch_size ns) (load_in_8bit ns) s (model_id ns) (dataset_id ns) (alpha ns))
  | opt_model_id =>
      Some (mkNamespace (batch_size ns) (load_in_8bit ns) (output_dir ns) s (dataset_id ns) (alpha ns))
  | opt_dataset_id =>
      Some (mkNamespace (batch_size ns) (load_in_8bit ns) (output_dir ns) (model_id ns) s (alpha ns))
  | opt_alpha =>
      x ← py_float py s;
      Some (mkNamespace (batch_size ns) (load_in_8bit ns) (output_dir ns) (model_id ns) (dataset_id ns) x)
  | opt_help | opt_load_in_8bit => None
  end.

Definition store_true (ns : Namespace) : Namespace :=
  mkNamespace (batch_size ns) true (output_dir ns) (model_id ns) (dataset_id ns) (alpha ns).

(** The parse loop.  The parser has no positional arguments, so every
    argument string must be an option or the value of the option just
    before it; a ["--"], a stray value or an unknown option is reported
    as unrecognized. *)
Fixpoint parse_known_args (ns : Namespace) (argv : list string) : parse_outcome :=
  match argv with
  | [] => Parsed ns
  | arg :: rest =>
      if String.eqb arg "--" then ParserExit else
      match parse_optional arg with
      | Positional | Unknown | Ambiguous => ParserExit
      | Optional opt_help _ => ParserExit
      | Optional opt_load_in_8bit explicit =>
          match explicit with
          | None => parse_known_args (store_true ns) rest
          | Some _ => ParserExit (* ignored explicit argument *)
          end
      | Optional o (Some explicit_arg) =>
          match store o explicit_arg ns with
          | Some ns' => parse_known_args ns' rest
          | None => ParserExit (* invalid value *)
          end
      | Optional o None =>
          match rest with
          | v :: rest' =>
              if is_value v then
                match store o v ns with
                | Some ns' => parse_known_args ns' rest'
                | None => ParserExit (* invalid value *)
                end
              else ParserExit (* expected one argument *)
          | [] => ParserExit (* expected one argument *)
          end
      end
  end.

Definition parse_args (argv : list string) : parse_outcome :=
  parse_known_args defaults argv.

(** The argument strings that select option [o]. *)
Definition selects (o : opt) (arg : string) : bool :=
  match parse_optional arg with
  | Optional o' _ => opt_eqb o o'
  | _ => false
  end.

Definition omits (o : opt) (argv : list string) : bool :=
  forallb (fun arg => negb (selects o arg)) argv.
End Parse.

(** Option [o] has the same value in both namespaces. *)
Definition same_field (o : opt) (a b : Namespace) : Prop :=
  match o with
  | opt_help => True
  | opt_batch_size => batch_size a = batch_size b
  | opt_load_in_8bit => load_in_8bit a = load_in_8bit b
  | opt_output_dir => output_dir a = output_dir b
  | opt_model_id => model_id a = model_id b
  | opt_dataset_id => dataset_id a = dataset_id b
  | opt_alpha => alpha a = alpha b
  end.

(** The options with a [store] action, which take one value. *)
Definition takes_value (o : opt) : bool :=
  match o with
  | opt_help | opt_load_in_8bit => false
  | _ => true
  end.

(** What [store] leaves in the namespace for option [o] given string [s]. *)
Definition stored (py : builtins) (o : opt) (s : string) (ns : Namespace) : Prop :=
  match o with
  | opt_batch_size => py_int py s = Some (batch_size ns)
  | opt_output_dir => output_dir ns = s
  | opt_model_id => model_id ns = s
  | opt_dataset_id => dataset_id ns = s
  | opt_alpha => py_float py s = Some (alpha ns)
  | opt_help | opt_load_in_8bit => False
  end.

End Argparse.

(** ** The script *)

(** Reading a local variable; a name that was never bound raises. *)
Definition local (name : string) (v : option value) : Prog value :=
  match v with
  | Some x => mret x
  | None => Throw (PyExc "UnboundLocalError" name)
  end.

(** The nested function [create_peft_config] of [run].  A float literal
    denotes the nearest double, in Python as here. *)
#[warnings="-inexact-float"]
Definition peft_config_kwargs : list (string * value) :=
  [ ("task_type", VAttr "TaskType.CAUSAL_LM");
    ("inference_mode", VBool false);
    ("r", VInt 8);
    ("lora_alpha", VInt 32);
    ("lora_dropout", VFloat 0.05%float);
    ("target_modules", VList [VStr "q_proj"; VStr "v_proj"]) ].

Definition create_peft_config (args : Namespace) (model : value) : Prog (value * value) :=
  import_from "peft"
    ["get_peft_model"; "LoraConfig"; "TaskType"; "prepare_model_for_int8_training"];;
  peft_config ← invoke (Fn "LoraConfig") [] peft_config_kwargs;
  (* prepare int-8 model for training *)
  model ← (if load_in_8bit args
           then invoke (Fn "prepare_model_for_int8_training") [model] []
           else mret model);
  model ← invoke (Fn "get_peft_model") [model; peft_config] [];
  invoke (Method model "print_trainable_parameters") [] [];;
  mret (model, peft_config).

(** The dict [config]. *)
#[warnings="-inexact-float"]
Definition config (args : Namespace) (lora_config : value) : list (string * value) :=
  [ ("lora_config", lora_config);
    ("learning_rate", VFloat 1e-4%float);
    ("num_train_epochs", VInt 1);
    ("gradient_accumulation_steps", VInt 2);
    ("per_device_train_batch_size", VInt (batch_size args));
    ("gradient_checkpointing", VBool false) ].

(** The profiler schedule: [wait, warmup, active, repeat = 1, 1, 2, 1]. *)
Definition wait : Z := 1.
Definition warmup : Z := 1.
Definition active : Z := 2.
Definition repeat : Z := 1.
Definition total_steps : Z := (wait + warmup + active) * (1 + repeat).

(** The locals bound by the profiler set-up: [profiler], and in the
    enabled branch only, [total_steps] and [profiler_callback]. *)
Definition set_up_profiler (enable_profiler : bool) (args : Namespace)
  : Prog (value * option value * option value) :=
  if enable_profiler then
    schedule ← invoke (Fn "torch.profiler.schedule") []
      [("wait", VInt wait); ("warmup", VInt warmup); ("active", VInt active); ("repeat", VInt repeat)];
    on_trace_ready ← invoke (Fn "torch.profiler.tensorboard_trace_handler")
      [VStr (output_dir args +:+ "/logs/tensorboard")] [];
    profiler ← invoke (Fn "torch.profiler.profile") []
      [("schedule", schedule); ("on_trace_ready", on_trace_ready);
       ("record_shapes", VBool true); ("profile_memory", VBool true); ("with_stack", VBool true)];
    mret (profiler, Some (VInt total_steps), Some (VProfilerCallback profiler))
  else
    mret (VNullContext, None, None).

Definition training_kwargs (args : Namespace) (max_steps : value)
    (config : list (string * value)) : list (string * value) :=
  [ ("output_dir", VStr (output_dir args));
    ("overwrite_output_dir", VBool true);
    ("bf16", VBool true);
    ("logging_dir", VStr (output_dir args +:+ "/logs"));
    ("logging_strategy", VStr "steps");
    ("logging_steps", VInt 10);
    ("save_strategy", VStr "no");
    ("optim", VStr "adamw_torch_fused");
    ("remove_unused_columns", VBool false);
    ("max_steps", max_steps) ]
  ++ List.filter (fun kv => negb (String.eqb kv.1 "lora_config")) config.

(** The body of [run], with the value of its local [enable_profiler]
    taken as an argument. *)
Definition run_with (enable_profiler : bool) (args : Namespace) : Prog unit :=
  tokenizer ← invoke (Fn "CodeLlamaTokenizer.from_pretrained") [VStr (model_id args)] [];
  model ← invoke (Fn "AutoModelForCausalLM.from_pretrained") [VStr (model_id args)]
    [("load_in_8bit", VBool (load_in_8bit args)); ("device_map", VStr "auto");
     ("torch_dtype", VAttr "torch.float16")];
  eos_token ← get tokenizer "eos_token";
  set tokenizer "pad_token" eos_token;;
  set tokenizer "padding_side" (VStr "right");;
  train_dataset ← invoke (Fn "get_preprocessed_data")
    [VStr (dataset_id args); tokenizer; VStr "train"] [];
  invoke (Method model "train") [] [];;
  (* create peft config *)
  '(model, lora_config) ← create_peft_config args model;
  let config := config args lora_config in
  (* Set up profiler *)
  '(profiler, total_steps, profiler_callback) ← set_up_profiler enable_profiler args;
  (* Define training args *)
  max_steps ← (if enable_profiler then local "total_steps" total_steps else mret (VInt (-1)));
  training_args ← invoke (Fn "TrainingArguments") [] (training_kwargs args max_steps config);
  data_collator ← invoke (Fn "DualObjectiveDataCollator") [] [];
  with_ profiler (
    (* Create Trainer instance *)
    callbacks ← (if enable_profiler
                 then cb ← local "profiler_callback" profiler_callback; mret (VList [cb])
                 else mret (VList []));
    trainer ← invoke (Fn "DualObjectiveTrainer") []
      [("alpha", VFloat (alpha args)); ("output_rationale", VBool false);
       ("model", model); ("args", training_args); ("tokenizer", tokenizer);
       ("train_dataset", train_dataset); ("data_collator", data_collator);
       ("callbacks", callbacks)];
    (* Start training *)
    invoke (Method trainer "train") [] [];;
    mret tt);;
  invoke (Method model "save_pretrained") [VStr (output_dir args)] [];;
  mret tt.

(** [enable_profiler = False] *)
Definition enable_profiler : bool := false.

Definition run (args : Namespace) : Prog unit := run_with enable_profiler args.

Definition main (py : builtins) (argv : list string) : Prog unit :=
  match Argparse.parse_args py argv with
  | Argparse.Parsed args => run args
  | Argparse.ParserExit => Throw SystemExit
  end.

(** ** A concrete environment

    Used to run the script on examples: an interpreter that converts plain
    decimal numerals, and packages that answer every call with a fresh
    object carrying an end-of-sequence token. *)

Module Sample.

Fixpoint digits (s : string) (acc : Z) : option Z :=
  match s with
  | EmptyString => Some acc
  | String c rest =>
      let n := Z.of_nat (nat_of_ascii c) - 48 in
      if (0 <=? n) && (n <=? 9) then digits rest (10 * acc + n) else None
  end.

Definition int (s : string) : option Z :=
  match s with
  | EmptyString => None
  | String c rest =>
      if Ascii.eqb c "-"%char then
        match rest with EmptyString => None | _ => Z.opp <$> digits rest 0 end
      else digits s 0
  end.

Definition float (s : string) : option PrimFloat.float :=
  if String.eqb s "0.5" then Some 0.5%float
  else if String.eqb s "0.25" then Some 0.25%float
  else if String.eqb s "1" then Some 1%float
  else None.

Definition negative (s : string) : bool :=
  match s with
  | String c rest => Ascii.eqb c "-"%char && bool_decide (is_Some (int s))
  | EmptyString => false
  end.

Definition py : builtins := Builtins int float negative.

(** Every action succeeds and returns a new object; the hidden state is
    the next free handle. *)
Definition fresh_object : gmap string value :=
  {[ "eos_token" := VStr "</s>"; "pad_token" := VNone; "padding_side" := VStr "left" ]}.

Definition world (a : action) (hp : gmap positive (gmap string value)) (next : positive)
  : (value + exn) * gmap positive (gmap string value) * positive :=
  (inl (VObj next), <[next := fresh_object]> hp, Pos.succ next).

(** As [world], but calls to the named function raise. *)
Definition failing (qualname : string) (e : exn)
    (a : action) (hp : gmap positive (gmap string value)) (next : positive)
  : (value + exn) * gmap positive (gmap string value) * positive :=
  match a with
  | ACall (Call (Fn f) _ _) =>
      if String.eqb f qualname then (inr e, hp, next) else world a hp next
  | _ => world a hp next
  end.

End Sample.

(** * Reading traces and programs *)

(** ** Reading a trace *)

(** The exception an event ended with, if any. *)
Definition failed (ev : event) : option exn :=
  match ev with
  | EAct _ _ (inr e) => Some e
  | EGet _ _ (inr e) => Some e
  | ESet _ _ _ (Some e) => Some e
  | _ => None
  end.

(** The external calls of a trace, and the answer each one got. *)
Definition call_of (ev : event) : option (call * (value + exn)) :=
  match ev with
  | EAct (ACall c) _ r => Some (c, r)
  | _ => None
  end.

Definition calls (tr : list event) : list call := omap (fun ev => fst <$> call_of ev) tr.

Definition is_fn (f : string) (c : call) : bool :=
  match target c with
  | Fn g => String.eqb f g
  | Method _ _ => false
  end.


(** The calls of function [f] in a trace. *)
Definition calls_to (f : string) (tr : list event) : list call :=
  List.filter (is_fn f) (calls tr).

(** What the first call of function [f] returned. *)
Fixpoint result_of (f : string) (tr : list event) : option value :=
  match tr with
  | [] => None
  | ev :: rest =>
      match call_of ev with
      | Some (c, inl v) => if is_fn f c then Some v else result_of f rest
      | _ => result_of f rest
      end
  end.

(** A short name for every event, to speak about the order of a trace. *)
Definition step_name (ev : event) : string :=
  match ev with
  | EAct (ACall c) _ _ =>
      match target c with
      | Fn f => f
      | Method _ m => "." +:+ m
      end
  | EAct (AImport m _) _ _ => "import " +:+ m
  | EAct (AEnter _) _ _ => "__enter__"
  | EAct (AExit _ _) _ _ => "__exit__"
  | EGet _ n _ => "getattr " +:+ n
  | ESet _ n _ _ => "setattr " +:+ n
  end.

Definition steps (tr : list event) : list string := step_name <$> tr.

(** [each_after pre tr P]: every event of [tr] satisfies [P], which is
    told the events that came before it ([pre], then the earlier part of
    [tr]). *)
Fixpoint each_after (P : list event -> event -> Prop) (pre : list event) (tr : list event) : Prop :=
  match tr with
  | [] => True
  | ev :: rest => P pre ev /\ each_after P (pre ++ [ev]) rest
  end.

(** ** Sequencing *)

(** Running [p] and then [f]: the trace of [p], then, if [p] returned,
    the trace of [f]. *)
Definition then_exec {W A B : Type}
    (world : action -> gmap positive (gmap string value) -> W ->
             (value + exn) * gmap positive (gmap string value) * W)
    (r : list event * (gmap positive (gmap string value) * W) * outcome A)
    (f : A -> Prog B) : list event * (gmap positive (gmap string value) * W) * outcome B :=
  let '(tr, (hp, w), o) := r in
  match o with
  | Returned a => let '(tr2, s, o2) := exec world (f a) hp w in (tr ++ tr2, s, o2)
  | Raised e => (tr, (hp, w), Raised e)
  end.

(** ** Two properties read off the text of a program *)

(** [always P p]: every external call [p] can make satisfies [P],
    whatever the earlier calls returned. *)
Fixpoint always {A : Type} (P : call -> Prop) (p : Prog A) : Prop :=
  match p with
  | Ret _ | Throw _ => True
  | Invoke c k => P c /\ forall v, always P (k v)
  | Import _ _ k => always P k
  | GetAttr _ _ k => forall v, always P (k v)
  | SetAttr _ _ _ k => always P k
  | With _ body k => always P body /\ always P k
  end.

(** [no_handler p]: nothing in [p] can catch an exception.  The only
    construct that could is a [with] statement whose context manager
    swallows the exception in [__exit__]; [nullcontext] never does. *)
Fixpoint no_handler {A : Type} (p : Prog A) : Prop :=
  match p with
  | Ret _ | Throw _ => True
  | Invoke _ k | GetAttr _ _ k => forall v, no_handler (k v)
  | Import _ _ k | SetAttr _ _ _ k => no_handler k
  | With cm body k => cm = VNullContext /\ no_handler body /\ no_handler k
  end.

(** In a trace where exceptions propagate, an event that failed is the
    last one, and its exception is the outcome. *)
Fixpoint propagated {A : Type} (tr : list event) (o : outcome A) : Prop :=
  match tr with
  | [] => True
  | ev :: rest =>
      match failed ev with
      | Some e => rest = [] /\ o = Raised e
      | None => propagated rest o
      end
  end.

(** The names of the functions called, in order. *)
Definition functions_called (tr : list event) : list string :=
  omap (fun c => match target c with Fn f => Some f | Method _ _ => None end) (calls tr).

(** ** The order of operations

    [run_script] is the sequence of steps the specification lists for the
    driver, refined with the operations the script performs in between
    (the tokenizer fix, dataset loading, [model.train()] and the [peft]
    import); [quantize] is the [--load_in_8bit] flag. *)
Definition run_script (quantize : bool) : list string :=
  [ "CodeLlamaTokenizer.from_pretrained";      (* (a) tokenizer *)
    "AutoModelForCausalLM.from_pretrained";    (* (a) base model *)
    "getattr eos_token"; "setattr pad_token"; "setattr padding_side";
    "get_preprocessed_data";
    ".train";
    "import peft";
    "LoraConfig" ]
  ++ (if quantize then ["prepare_model_for_int8_training"] else []) (* (b) quantize *)
  ++ [ "get_peft_model";                       (* (b) wrap with adapters *)
       ".print_trainable_parameters";
       "TrainingArguments";                    (* (c) training configuration *)
       "DualObjectiveDataCollator";            (* (e) collator *)
       "DualObjectiveTrainer";                 (* (e) trainer *)
       ".train";                               (* (f) training loop *)
       ".save_pretrained" ].                   (* (g) persist the adapter weights *)

(** The functions called by a complete run. *)
Definition run_functions (quantize : bool) : list string :=
  [ "CodeLlamaTokenizer.from_pretrained"; "AutoModelForCausalLM.from_pretrained";
    "get_preprocessed_data"; "LoraConfig" ]
  ++ (if quantize then ["prepare_model_for_int8_training"] else [])
  ++ [ "get_peft_model"; "TrainingArguments"; "DualObjectiveDataCollator";
       "DualObjectiveTrainer" ].

(** ** What is passed to whom *)


(** ** The output directory *)


(** ** The tokenizer *)

(** The three operations of [run] that fix the tokenizer [tok]. *)
Definition tokenizer_fix (tok eos : value) : list event :=
  [ EGet tok "eos_token" (inl eos);
    ESet tok "pad_token" eos None;
    ESet tok "padding_side" (VStr "right") None ].

(** [tokenizer_fixed args pre ev]: if [ev] is the call that preprocesses
    the dataset or the one that constructs the trainer, then the events
    [pre] before it contain the creation of the tokenizer [tok] followed by
    its fix, and [ev] is handed that same object [tok]; the dataset call
    comes right after the fix, and finds in the store a tokenizer whose
    [pad_token] is its [eos_token] and whose [padding_side] is "right". *)
Definition tokenizer_fixed (args : Namespace) (pre : list event) (ev : event) : Prop :=
  match ev with
  | EAct (ACall c) before _ =>
      is_fn "get_preprocessed_data" c || is_fn "DualObjectiveTrainer" c = true ->
      exists tok eos l1 l2,
        pre = l1 ++ tokenizer_fix tok eos ++ l2
        /\ result_of "CodeLlamaTokenizer.from_pretrained" l1 = Some tok
        /\ (is_fn "get_preprocessed_data" c = true ->
            l2 = []
            /\ posargs c = [VStr (dataset_id args); tok; VStr "train"]
            /\ getattr before tok "pad_token" = inl eos
            /\ getattr before tok "eos_token" = inl eos
            /\ getattr before tok "padding_side" = inl (VStr "right"))
        /\ (is_fn "DualObjectiveTrainer" c = true ->
            lookup_kw "tokenizer" (kwds c) = Some tok)
  | _ => True
  end.

(** ** The profiler *)

Definition enters_or_exits (ev : event) : bool :=
  match ev with
  | EAct (AEnter _) _ _ | EAct (AExit _ _) _ _ => true
  | _ => false
  end.

(** ** Inputs of the examples *)

Module Witness.


Definition no_dataset : exn := PyExc "FileNotFoundError" "zhaospei/cmg_allinone".

End Witness.

(** ** More of the script *)

(** Lines 16 and 17 of [run]: the tokenizer gets its end-of-sequence
    token as padding token, and pads on the right. *)
Definition fix_tokenizer (tokenizer : value) : Prog unit :=
  eos_token ← get tokenizer "eos_token";
  set tokenizer "pad_token" eos_token;;
  set tokenizer "padding_side" (VStr "right").

(** The local class [ProfilerCallback]: [__init__] keeps the profiler,
    [on_step_end] accepts any arguments and steps the profiler. *)
Definition ProfilerCallback (profiler : value) : value := VProfilerCallback profiler.

Definition on_step_end (self : value) (args : list value) (kwargs : list (string * value))
  : Prog value :=
  profiler ← match self with
             | VProfilerCallback profiler => mret profiler
             | _ => Throw (PyExc "AttributeError" "profiler")
             end;
  invoke (Method profiler "step") [] [];;
  mret VNone.

(** ** More ways to read traces and programs *)


(** [throws_nothing p]: [p] raises no exception of its own; whatever it
    raises comes from an operation that failed. *)
Fixpoint throws_nothing {A : Type} (p : Prog A) : Prop :=
  match p with
  | Ret _ => True
  | Throw _ => False
  | Invoke _ k | GetAttr _ _ k => forall v, throws_nothing (k v)
  | Import _ _ k | SetAttr _ _ _ k => throws_nothing k
  | With cm body k => cm = VNullContext /\ throws_nothing body /\ throws_nothing k
  end.

(** An outcome explained by the trace: a return after operations that
    all succeeded, or the exception of the last operation. *)
Definition explained {A : Type} (tr : list event) (o : outcome A) : Prop :=
  match o with
  | Returned _ => Forall (fun ev => failed ev = None) tr
  | Raised e => exists l ev, tr = l ++ [ev] /\ Forall (fun ev => failed ev = None) l
                             /\ failed ev = Some e
  end.

(** The argument strings a command line that parses may contain: not
    ["--"], and either a plain string or an option other than help. *)
Definition acceptable (py : builtins) (arg : string) : bool :=
  negb (String.eqb arg "--") &&
  match Argparse.parse_optional py arg with
  | Argparse.Positional => true
  | Argparse.Optional o _ => negb (Argparse.opt_eqb o Argparse.opt_help)
  | Argparse.Unknown | Argparse.Ambiguous => false
  end.

(** The non-empty prefixes of a string, shortest first. *)
Fixpoint prefixes (s : string) : list string :=
  match s with
  | EmptyString => []
  | String c rest => String c EmptyString :: map (String c) (prefixes rest)
  end.

(** [each_before P tr]: every event of [tr] satisfies [P], which is told
    the events that come after it. *)
Fixpoint each_before (P : event -> list event -> Prop) (tr : list event) : Prop :=
  match tr with
  | [] => True
  | ev :: rest => P ev rest /\ each_before P rest
  end.

(** [exited_after ev rest]: if [ev] is a context manager entered, then
    [rest] has its exit: after a body that is the construction of the
    trainer and the training, or what was done of them, [__exit__] is
    called with the exception that ended the body, if any; the model is
    saved after that only if the exit returned, and the body had raised
    nothing or the exit swallowed it. *)
Definition exited_after (ev : event) (rest : list event) : Prop :=
  match ev with
  | EAct (AEnter cm) _ (inl _) =>
      exists body exc before res rest',
        rest = body ++ EAct (AExit cm exc) before res :: rest'
        /\ steps body `prefix_of` ["DualObjectiveTrainer"; ".train"]
        /\ exc = last body ≫= failed
        /\ steps rest' `prefix_of` [".save_pretrained"]
        /\ (rest' <> [] -> exists r, res = inl r /\ (exc = None \/ truthy r = true))
  | _ => True
  end.

(** [callback_attached pre ev]: if [ev] constructs the trainer, its
    callbacks are one [ProfilerCallback] on the profiler that
    [torch.profiler.profile] returned earlier in [pre], and unless that
    is a null context the last thing done before was to enter it. *)
Definition callback_attached (pre : list event) (ev : event) : Prop :=
  match ev with
  | EAct (ACall c) _ _ =>
      is_fn "DualObjectiveTrainer" c = true ->
      exists profiler,
        result_of "torch.profiler.profile" pre = Some profiler
        /\ lookup_kw "callbacks" (kwds c) = Some (VList [ProfilerCallback profiler])
        /\ (profiler = VNullContext
            \/ exists before v, last pre = Some (EAct (AEnter profiler) before (inl v)))
  | _ => True
  end.

(** A lighter environment for examples: only the tokenizer is given
    attributes, every other action returns a new bare object. *)
Module Light.

Definition world (a : action) (hp : gmap positive (gmap string value)) (next : positive)
  : (value + exn) * gmap positive (gmap string value) * positive :=
  match a with
  | ACall c =>
      if is_fn "CodeLlamaTokenizer.from_pretrained" c
      then (inl (VObj next), <[next := {[ "eos_token" := VStr "</s>" ]}]> hp, Pos.succ next)
      else (inl (VObj next), hp, Pos.succ next)
  | _ => (inl (VObj next), hp, Pos.succ next)
  end.

End Light.

(** * Lemmas and theorems *)

Lemma each_after_split P pre tr :
  each_after P pre tr ->
  forall l ev r, tr = l ++ ev :: r -> P (pre ++ l) ev.
Proof.
  revert pre. induction tr as [|x tr IH]; intros pre H l ev r E.
  - destruct l; discriminate.
  - destruct H as [Hx Hrest]. destruct l as [|y l]; simpl in E; injection E as ? ?; subst.
    + by rewrite app_nil_r.
    + specialize (IH _ Hrest l ev r eq_refl). by rewrite <- app_assoc in IH.
Qed.

(** ** The semantics of sequencing *)

Section Theory.
Context {W : Type}.
Variable world : action -> gmap positive (gmap string value) -> W ->
                 (value + exn) * gmap positive (gmap string value) * W.

Lemma then_exec_cons {A B : Type} ev tr s (o : outcome A) (f : A -> Prog B) :
  then_exec world (ev :: tr, s, o) f =
  let '(tr', s', o') := then_exec world (tr, s, o) f in (ev :: tr', s', o').
Proof.
  destruct s as [hp w], o as [a|e]; simpl.
  - by destruct (exec world (f a) hp w) as [[? ?] ?].
  - reflexivity.
Qed.

Lemma then_exec_app {A B : Type} pre tr s (o : outcome A) (f : A -> Prog B) :
  then_exec world (pre ++ tr, s, o) f =
  let '(tr', s', o') := then_exec world (tr, s, o) f in (pre ++ tr', s', o').
Proof.
  induction pre as [|ev pre IH]; cbn [app].
  - by destruct (then_exec world (tr, s, o) f) as [[? ?] ?].
  - rewrite then_exec_cons, IH. by destruct (then_exec world (tr, s, o) f) as [[? ?] ?].
Qed.

Lemma exec_bind {A B : Type} (p : Prog A) (f : A -> Prog B) hp w :
  exec world (bind p f) hp w = then_exec world (exec world p hp w) f.
Proof.
  revert B f hp w.
  induction p as [A a|A e|A c k IH|A m ns k IH|A o n k IH|A o n v k IH|A cm body IHb k IH];
    intros B f hp w; simpl.
  - by destruct (exec world (f a) hp w) as [[? ?] ?].
  - reflexivity.
  - destruct (world (ACall c) hp w) as [[[v|e] hp'] w']; [|done].
    rewrite IH. destruct (exec world (k v) hp' w') as [[tr s] o].
    by rewrite then_exec_cons.
  - destruct (world (AImport m ns) hp w) as [[[v|e] hp'] w']; [|done].
    rewrite IH. destruct (exec world k hp' w') as [[tr s] o].
    by rewrite then_exec_cons.
  - destruct (getattr hp o n) as [v|e]; [|done].
    rewrite IH. destruct (exec world (k v) hp w) as [[tr s] out].
    by rewrite then_exec_cons.
  - destruct (setattr hp o n v) as [hp'|e]; [|done].
    rewrite IH. destruct (exec world k hp' w) as [[tr s] out].
    by rewrite then_exec_cons.
  - assert (Hk : forall pre hp1 w1,
      (let '(tr2, s, o2) := exec world (bind k f) hp1 w1 in (pre ++ tr2, s, o2)) =
      then_exec world (let '(tr2, s, o2) := exec world k hp1 w1 in (pre ++ tr2, s, o2)) f).
    { intros pre hp1 w1. rewrite IH.
      destruct (exec world k hp1 w1) as [[tr2 s] o2].
      by rewrite then_exec_app. }
    destruct cm; simpl; try done.
    + destruct (world (AEnter (VObj h)) hp w) as [[[v0|e0] hp0] w0]; [|done].
      destruct (exec world body hp0 w0) as [[tr1 [hp1 w1]] o1].
      destruct (world (AExit (VObj h) match o1 with Returned _ => None | Raised e => Some e end) hp1 w1)
        as [[[v2|e2] hp2] w2]; [|done].
      destruct o1 as [[]|e1].
      * apply (Hk (EAct _ _ _ :: _)).
      * destruct (truthy v2); [apply (Hk (EAct _ _ _ :: _))|done].
    + destruct (exec world body hp w) as [[tr1 [hp1 w1]] o1].
      destruct o1 as [[]|e1]; [apply Hk|done].
Qed.
End Theory.

Lemma always_bind {A B : Type} P (p : Prog A) (f : A -> Prog B) :
  always P p -> (forall a, always P (f a)) -> always P (bind p f).
Proof.
  intros Hp Hf. revert Hp.
  induction p as [A a|A e|A c k IH|A m ns k IH|A o n k IH|A o n v k IH|A cm body IHb k IH];
    simpl; intros Hp; try done; try (by apply IH); try (by intros v; apply IH).
  - destruct Hp as [Hc Hk]. split; [done|]. intros v. by apply IH.
  - destruct Hp as [Hb Hk]. split; [done|]. by apply IH.
Qed.

Lemma no_handler_bind {A B : Type} (p : Prog A) (f : A -> Prog B) :
  no_handler p -> (forall a, no_handler (f a)) -> no_handler (bind p f).
Proof.
  intros Hp Hf. revert Hp.
  induction p as [A a|A e|A c k IH|A m ns k IH|A o n k IH|A o n v k IH|A cm body IHb k IH];
    simpl; intros Hp; try done; try (by apply IH); try (by intros v; apply IH).
  destruct Hp as (Hcm & Hb & Hk). repeat split; [done..|]. by apply IH.
Qed.

Lemma calls_app tr1 tr2 : calls (tr1 ++ tr2) = calls tr1 ++ calls tr2.
Proof. unfold calls. apply omap_app. Qed.

Lemma propagated_app {A B : Type} tr1 tr2 (a : A) (o : outcome B) :
  propagated tr1 (Returned a) -> propagated tr2 o -> propagated (tr1 ++ tr2) o.
Proof.
  induction tr1 as [|ev tr1 IH]; simpl; [done|].
  destruct (failed ev); [intros [_ [=]]|auto].
Qed.

Lemma propagated_raised {A B : Type} tr e :
  propagated tr (@Raised A e) -> propagated tr (@Raised B e).
Proof.
  induction tr as [|ev tr IH]; simpl; [done|].
  destruct (failed ev); [|done]. by intros [-> [= ->]].
Qed.

Lemma propagated_split {A : Type} tr (o : outcome A) :
  propagated tr o ->
  forall l ev r e, tr = l ++ ev :: r -> failed ev = Some e -> r = [] /\ o = Raised e.
Proof.
  induction tr as [|x tr IH]; intros H l ev r e E Hev.
  - destruct l; discriminate.
  - destruct l as [|y l]; simpl in *; injection E as ? ?; subst.
    + by rewrite Hev in H.
    + destruct (failed y) as [e'|].
      * destruct H as [H _]. destruct l; discriminate.
      * eauto.
Qed.

Section Soundness.
Context {W : Type}.
Variable world : action -> gmap positive (gmap string value) -> W ->
                 (value + exn) * gmap positive (gmap string value) * W.

Lemma always_sound {A : Type} P (p : Prog A) hp w :
  always P p -> Forall P (calls (trace_of (exec world p hp w))).
Proof.
  revert hp w.
  induction p as [A a|A e|A c k IH|A m ns k IH|A o n k IH|A o n v k IH|A cm body IHb k IH];
    intros hp w Hp; simpl in *.
  - constructor.
  - constructor.
  - destruct Hp as [Hc Hk].
    destruct (world (ACall c) hp w) as [[[v|e] hp'] w'].
    + specialize (IH v hp' w' (Hk v)).
      destruct (exec world (k v) hp' w') as [[tr s] o]. by constructor.
    + by repeat constructor.
  - destruct (world (AImport m ns) hp w) as [[[v|e] hp'] w'].
    + specialize (IH hp' w' Hp). by destruct (exec world k hp' w') as [[tr s] o].
    + constructor.
  - destruct (getattr hp o n) as [v|e].
    + specialize (IH v hp w (Hp v)). by destruct (exec world (k v) hp w) as [[tr s] out].
    + constructor.
  - destruct (setattr hp o n v) as [hp'|e].
    + specialize (IH hp' w Hp). by destruct (exec world k hp' w) as [[tr s] out].
    + constructor.
  - destruct Hp as [Hb Hk].
    assert (Hk' : forall pre hp1 w1, Forall P (calls pre) ->
      Forall P (calls (trace_of
        (let '(tr2, s, o2) := exec world k hp1 w1 in (pre ++ tr2, s, o2))))).
    { intros pre hp1 w1 Hpre. specialize (IH hp1 w1 Hk).
      destruct (exec world k hp1 w1) as [[tr2 s] o2]. unfold trace_of in *; simpl in *.
      rewrite calls_app. by apply Forall_app. }
    destruct cm; simpl; try constructor.
    + destruct (world (AEnter (VObj h)) hp w) as [[[v0|e0] hp0] w0]; [|constructor].
      specialize (IHb hp0 w0 Hb).
      destruct (exec world body hp0 w0) as [[tr1 [hp1 w1]] o1].
      change (Forall P (calls tr1)) in IHb.
      set (exc := match o1 with Returned _ => None | Raised e => Some e end).
      assert (Hpre : forall r, Forall P (calls (EAct (AEnter (VObj h)) hp (inl v0)
                       :: tr1 ++ [EAct (AExit (VObj h) exc) hp1 r]))).
      { intros r. change (Forall P (calls (tr1 ++ [EAct (AExit (VObj h) exc) hp1 r]))).
        rewrite calls_app. apply Forall_app; split; [exact IHb|constructor]. }
      destruct (world (AExit (VObj h) exc) hp1 w1) as [[[v2|e2] hp2] w2]; [|apply Hpre].
      destruct o1 as [[]|e1]; simpl.
      * apply (Hk' (_ :: _)), Hpre.
      * destruct (truthy v2); [apply (Hk' (_ :: _)), Hpre|apply Hpre].
    + specialize (IHb hp w Hb).
      destruct (exec world body hp w) as [[tr1 [hp1 w1]] o1].
      destruct o1 as [[]|e1]; [by apply Hk'|exact IHb].
Qed.

Lemma no_handler_sound {A : Type} (p : Prog A) hp w :
  no_handler p ->
  propagated (trace_of (exec world p hp w)) (outcome_of (exec world p hp w)).
Proof.
  revert hp w.
  induction p as [A a|A e|A c k IH|A m ns k IH|A o n k IH|A o n v k IH|A cm body IHb k IH];
    intros hp w Hp; simpl in *; try done.
  - destruct (world (ACall c) hp w) as [[[v|e] hp'] w']; [|done].
    specialize (IH v hp' w' (Hp v)). by destruct (exec world (k v) hp' w') as [[tr s] o].
  - destruct (world (AImport m ns) hp w) as [[[v|e] hp'] w']; [|done].
    specialize (IH hp' w' Hp). by destruct (exec world k hp' w') as [[tr s] o].
  - destruct (getattr hp o n) as [v|e]; [|done].
    specialize (IH v hp w (Hp v)). by destruct (exec world (k v) hp w) as [[tr s] out].
  - destruct (setattr hp o n v) as [hp'|e]; [|done].
    specialize (IH hp' w Hp). by destruct (exec world k hp' w) as [[tr s] out].
  - destruct Hp as (-> & Hb & Hk).
    specialize (IHb hp w Hb).
    destruct (exec world body hp w) as [[tr1 [hp1 w1]] o1].
    destruct o1 as [[]|e1]; [|exact (propagated_raised _ _ IHb)].
    specialize (IH hp1 w1 Hk).
    destruct (exec world k hp1 w1) as [[tr2 s] o2].
    unfold trace_of, outcome_of in *; simpl in *.
    by eapply propagated_app.
Qed.
End Soundness.

(** ** The object store *)

Lemma getattr_setattr_same hp hp' o n v :
  setattr hp o n v = inl hp' -> getattr hp' o n = inl v.
Proof.
  unfold setattr, getattr. destruct o; try discriminate.
  intros [= <-]. rewrite lookup_insert_eq. simpl. by rewrite lookup_insert_eq.
Qed.

Lemma getattr_setattr_other hp hp' o n n' v :
  setattr hp o n v = inl hp' -> n <> n' -> getattr hp' o n' = getattr hp o n'.
Proof.
  unfold setattr, getattr. destruct o; try discriminate.
  intros [= <-] Hne. rewrite lookup_insert_eq. simpl. rewrite lookup_insert_ne by done.
  by destruct (hp !! h).
Qed.

(** ** The command line: what a successful parse guarantees *)

Lemma pair_induction {A : Type} (P : list A -> Prop) :
  P [] -> (forall a, P [a]) ->
  (forall a b l, P l -> P (b :: l) -> P (a :: b :: l)) ->
  forall l, P l.
Proof.
  intros H0 H1 H2 l.
  enough (P l /\ forall a, P (a :: l)) by tauto.
  induction l as [|b l [IH1 IH2]]; split; auto.
Qed.

Module ArgparseFacts.
Import Argparse.

Section Facts.
Variable py : builtins.

Lemma same_field_trans o a b c : same_field o a b -> same_field o b c -> same_field o a c.
Proof. destruct o; simpl; congruence. Qed.

Lemma store_same_field o o' s ns ns' :
  store py o' s ns = Some ns' -> opt_eqb o o' = false -> same_field o ns ns'.
Proof.
  destruct o'; simpl; try discriminate.
  - destruct (py_int py s); simpl; [|discriminate]. intros [= <-]. by destruct o.
  - intros [= <-]. by destruct o.
  - intros [= <-]. by destruct o.
  - intros [= <-]. by destruct o.
  - destruct (py_float py s); simpl; [|discriminate]. intros [= <-]. by destruct o.
Qed.

Lemma store_stored o s ns ns' : store py o s ns = Some ns' -> stored py o s ns'.
Proof.
  destruct o; simpl; try discriminate.
  - destruct (py_int py s); simpl; [|discriminate]. by intros [= <-].
  - by intros [= <-].
  - by intros [= <-].
  - by intros [= <-].
  - destruct (py_float py s); simpl; [|discriminate]. by intros [= <-].
Qed.

Lemma store_true_same_field o ns :
  opt_eqb o opt_load_in_8bit = false -> same_field o ns (store_true ns).
Proof. by destruct o. Qed.

(** An option absent from the command line keeps the value it had. *)
Lemma parse_keeps_omitted o argv : forall ns0 ns,
  parse_known_args py ns0 argv = Parsed ns ->
  omits py o argv = true ->
  same_field o ns0 ns.
Proof.
  induction argv as [| a | a b l IHl IHbl] using pair_induction; intros ns0 ns.
  - intros [= <-] _. by destruct o.
  - simpl. destruct (String.eqb a "--"); [discriminate|].
    unfold selects. destruct (parse_optional py a) as [|o' ex| |]; try discriminate.
    destruct o', ex; try discriminate; rewrite ?andb_true_r, ?negb_true_iff.
    all: try (destruct (store py _ _ ns0) as [ns'|] eqn:Es; [|discriminate];
              intros [= <-] Ho; by eapply store_same_field).
    intros [= <-] Ho. by apply store_true_same_field.
  - cbn [parse_known_args omits forallb]. destruct (String.eqb a "--"); [discriminate|].
    unfold selects at 1. destruct (parse_optional py a) as [|o' ex| |]; try discriminate.
    intros Hp [Ho [Hb Hl]%andb_prop]%andb_prop.
    apply negb_true_iff in Ho.
    assert (Hbl' : omits py o (b :: l) = true) by (simpl; by rewrite Hb).
    destruct o', ex; try discriminate.
    all: try (destruct (store py _ _ ns0) as [ns'|] eqn:Es; [|discriminate];
              eapply same_field_trans; [by eapply store_same_field|by eapply IHbl]).
    all: try (destruct (is_value py b); [|discriminate];
              destruct (store py _ _ ns0) as [ns'|] eqn:Es; [|discriminate];
              eapply same_field_trans; [by eapply store_same_field|by eapply IHl]).
    eapply same_field_trans; [by apply store_true_same_field|by eapply IHbl].
Qed.

(** The spelled-out option strings are recognised as such. *)
Lemma parse_optional_exact flag o :
  find_option flag option_string_actions = Some o ->
  parse_optional py flag = Optional o None /\ is_value py flag = false.
Proof.
  intros H. assert (Hflag : In flag (map fst option_string_actions)).
  { revert H. generalize option_string_actions. induction l as [|[os o'] l IH]; simpl; [done|].
    destruct (String.eqb_spec flag os); [auto|]. intros; right; auto. }
  simpl in Hflag. unfold is_value.
  repeat (destruct Hflag as [<-|Hflag]; [revert H; cbv; by intros [= <-]|]). done.
Qed.

(** When the command line ends with [flag s], the namespace holds the
    value of [s] for that option. *)
Lemma parse_last_wins flag o s argv : forall ns0 ns,
  find_option flag option_string_actions = Some o ->
  takes_value o = true ->
  parse_known_args py ns0 (argv ++ [flag; s]) = Parsed ns ->
  stored py o s ns.
Proof.
  intros ns0 ns Hflag Hval. destruct (parse_optional_exact _ _ Hflag) as [Hpo Hnv].
  assert (Hne : String.eqb flag "--" = false).
  { destruct (String.eqb_spec flag "--") as [->|]; [by cbv in Hflag|done]. }
  assert (Hbase : forall ns0,
    parse_known_args py ns0 [flag; s] = Parsed ns -> stored py o s ns).
  { intros ns1. simpl. rewrite Hne, Hpo.
    destruct o; try discriminate.
    all: destruct (is_value py s); [|discriminate].
    all: destruct (store py _ s ns1) as [ns'|] eqn:Es; [|discriminate].
    all: intros [= <-]; by apply (store_stored _ _ _ _ Es). }
  revert ns0.
  induction argv as [| a | a b l IHl IHbl] using pair_induction; intros ns0.
  - apply Hbase.
  - change ([a] ++ [flag; s]) with (a :: [flag; s]). cbn [parse_known_args].
    destruct (String.eqb a "--"); [discriminate|].
    destruct (parse_optional py a) as [|o' ex| |]; try discriminate.
    destruct o', ex; try discriminate.
    all: try (destruct (store py _ _ ns0) as [ns'|]; [apply Hbase|discriminate]).
    all: try (rewrite Hnv; discriminate).
    apply Hbase.
  - change ((a :: b :: l) ++ [flag; s]) with (a :: b :: (l ++ [flag; s])).
    cbn [parse_known_args].
    destruct (String.eqb a "--"); [discriminate|].
    destruct (parse_optional py a) as [|o' ex| |]; try discriminate.
    destruct o', ex; try discriminate.
    all: try (destruct (store py _ _ ns0) as [ns'|]; [apply IHbl|discriminate]).
    all: try (destruct (is_value py b); [|discriminate];
              destruct (store py _ _ ns0) as [ns'|]; [apply IHl|discriminate]).
    apply IHbl.
Qed.
End Facts.
End ArgparseFacts.

Lemma length_calls_to f tr :
  length (calls_to f tr) = length (List.filter (String.eqb f) (functions_called tr)).
Proof.
  unfold calls_to, functions_called, is_fn.
  induction (calls tr) as [|c l IH]; simpl; [done|].
  destruct (target c) as [g|self m]; simpl; [|done].
  destruct (String.eqb f g); simpl; by rewrite IH.
Qed.

Lemma Forall_calls_to (Q : call -> Prop) f tr :
  Forall (fun c => is_fn f c = true -> Q c) (calls tr) -> Forall Q (calls_to f tr).
Proof.
  unfold calls_to. induction 1 as [|c l Hc _ IH]; simpl; [constructor|].
  destruct (is_fn f c); [constructor; auto|done].
Qed.

(** Symbolic execution: split on the answer of the environment [wd] to
    the next operation, until the whole result of [run] is known. *)
Ltac exec_step wd :=
  match goal with
  | |- context [wd ?a ?hp ?w] =>
      destruct (wd a hp w) as [[[?v|?e] ?hp] ?w]
  | |- context [getattr ?hp ?o ?n] =>
      let E := fresh "Eg" in destruct (getattr hp o n) as [?v|?e] eqn:E
  | |- context [setattr ?hp ?o ?n ?v] =>
      let E := fresh "Es" in destruct (setattr hp o n v) as [?hp|?e] eqn:E
  end; simpl.

Ltac run_cases wd args :=
  match goal with
  | |- context [exec wd (run args) ?hp ?w] =>
      let r := fresh "r" in
      let Er := fresh "Er" in
      remember (exec wd (run args) hp w) as r eqn:Er; revert Er;
      unfold run, run_with, enable_profiler;
      destruct args as [bs [] od mi di al]; simpl; repeat (exec_step wd);
      intros ->; cbn
  end.

Section Run.
Context {W : Type}.
Variable world : action -> gmap positive (gmap string value) -> W ->
                 (value + exn) * gmap positive (gmap string value) * W.

Lemma main_parsed py argv args :
  Argparse.parse_args py argv = Argparse.Parsed args -> main py argv = run args.
Proof. unfold main. by intros ->. Qed.

Lemma run_steps args hp w :
  let r := exec world (run args) hp w in
  steps (trace_of r) `prefix_of` run_script (load_in_8bit args)
  /\ (outcome_of r = Returned tt ->
      steps (trace_of r) = run_script (load_in_8bit args)
      /\ functions_called (trace_of r) = run_functions (load_in_8bit args)).
Proof.
  cbv zeta. run_cases world args.
  all: split; [by eexists|by intros [=]].
Qed.

(** When [run] returns, function [f] was called as often as it occurs
    in [run_functions]. *)
Lemma run_calls_count f args hp w :
  outcome_of (exec world (run args) hp w) = Returned tt ->
  length (calls_to f (trace_of (exec world (run args) hp w))) =
  length (List.filter (String.eqb f) (run_functions (load_in_8bit args))).
Proof.
  intros Hret. rewrite length_calls_to.
  by destruct (run_steps args hp w) as [_ [_ ->]].
Qed.


End Run.

(** ** Exceptions *)

Lemma run_no_handler args : no_handler (run args).
Proof.
  unfold run, run_with, enable_profiler.
  destruct args as [bs [] od mi di al]; simpl; repeat (split || intros ?).
Qed.

Lemma main_no_handler py argv : no_handler (main py argv).
Proof.
  unfold main. destruct (Argparse.parse_args py argv); [apply run_no_handler|done].
Qed.

Section Exceptions.
Context {W : Type}.
Variable world : action -> gmap positive (gmap string value) -> W ->
                 (value + exn) * gmap positive (gmap string value) * W.

(** C7: neither [run] nor [main] contains an exception handler: when an
    operation of either one fails with an exception, nothing is done
    after it and that exception is the outcome of [run] and of [main]. *)
Theorem exceptions_propagate py argv args (p : Prog unit) hp w l ev r e :
  p = run args \/ p = main py argv ->
  trace_of (exec world p hp w) = l ++ ev :: r ->
  failed ev = Some e ->
  no_handler p /\ r = [] /\ outcome_of (exec world p hp w) = Raised e.
Proof.
  intros Hp Htr Hev.
  assert (Hnh : no_handler p).
  { destruct Hp as [->| ->]; [apply run_no_handler|apply main_no_handler]. }
  split; [done|].
  eapply propagated_split; [by apply no_handler_sound|done..].
Qed.
End Exceptions.



(** Checking a property of the arguments of every call of [run]. *)
Ltac check_calls args :=
  unfold run, run_with, enable_profiler;
  destruct args as [bs [] od mi di al]; simpl;
  repeat (split || intros ?); try discriminate; try reflexivity.

Section Wiring.
Context {W : Type}.
Variable world : action -> gmap positive (gmap string value) -> W ->
                 (value + exn) * gmap positive (gmap string value) * W.



End Wiring.

(** ** Fixed configuration *)

Section Configuration.
Context {W : Type}.
Variable world : action -> gmap positive (gmap string value) -> W ->
                 (value + exn) * gmap positive (gmap string value) * W.

(** C10: whatever the command line, every [LoraConfig] is built with
    the same six arguments, every [TrainingArguments] with the same
    learning rate, epochs, accumulation steps, checkpointing flag,
    precision, save strategy and optimizer, and every trainer with
    [output_rationale=False]; a run that returns has built each once. *)
#[warnings="-inexact-float"]
Theorem configuration_is_fixed py argv args hp w :
  Argparse.parse_args py argv = Argparse.Parsed args ->
  let r := exec world (main py argv) hp w in
  Forall (fun c =>
            posargs c = []
            /\ kwds c = [ ("task_type", VAttr "TaskType.CAUSAL_LM");
                         ("inference_mode", VBool false);
                         ("r", VInt 8);
                         ("lora_alpha", VInt 32);
                         ("lora_dropout", VFloat 0.05%float);
                         ("target_modules", VList [VStr "q_proj"; VStr "v_proj"]) ])
         (calls_to "LoraConfig" (trace_of r))
  /\ Forall (fun c =>
            lookup_kw "learning_rate" (kwds c) = Some (VFloat 1e-4%float)
            /\ lookup_kw "num_train_epochs" (kwds c) = Some (VInt 1)
            /\ lookup_kw "gradient_accumulation_steps" (kwds c) = Some (VInt 2)
            /\ lookup_kw "gradient_checkpointing" (kwds c) = Some (VBool false)
            /\ lookup_kw "bf16" (kwds c) = Some (VBool true)
            /\ lookup_kw "save_strategy" (kwds c) = Some (VStr "no")
            /\ lookup_kw "optim" (kwds c) = Some (VStr "adamw_torch_fused")
            /\ lookup_kw "lora_config" (kwds c) = None)
         (calls_to "TrainingArguments" (trace_of r))
  /\ Forall (fun c => lookup_kw "output_rationale" (kwds c) = Some (VBool false))
         (calls_to "DualObjectiveTrainer" (trace_of r))
  /\ (outcome_of r = Returned tt ->
      length (calls_to "LoraConfig" (trace_of r)) = 1%nat
      /\ length (calls_to "TrainingArguments" (trace_of r)) = 1%nat
      /\ length (calls_to "DualObjectiveTrainer" (trace_of r)) = 1%nat).
Proof.
  intros Hparse. rewrite (main_parsed _ _ _ Hparse). cbv zeta.
  split; [|split; [|split]].
  - apply Forall_calls_to, always_sound. check_calls args.
  - apply Forall_calls_to, always_sound. check_calls args.
  - apply Forall_calls_to, always_sound. check_calls args.
  - intros Hret. rewrite !(run_calls_count _ _ _ _ _ Hret). by destruct (load_in_8bit args).
Qed.
End Configuration.

(** ** The output directory, quantization and wrapping *)

Section OutputDir.
Context {W : Type}.
Variable world : action -> gmap positive (gmap string value) -> W ->
                 (value + exn) * gmap positive (gmap string value) * W.


End OutputDir.


(** ** The tokenizer is fixed before it is used *)

Section Tokenizer.
Context {W : Type}.
Variable world : action -> gmap positive (gmap string value) -> W ->
                 (value + exn) * gmap positive (gmap string value) * W.

Lemma tokenizer_fix_store hp1 hp2 hp3 tok eos :
  getattr hp1 tok "eos_token" = inl eos ->
  setattr hp1 tok "pad_token" eos = inl hp2 ->
  setattr hp2 tok "padding_side" (VStr "right") = inl hp3 ->
  getattr hp3 tok "pad_token" = inl eos
  /\ getattr hp3 tok "eos_token" = inl eos
  /\ getattr hp3 tok "padding_side" = inl (VStr "right").
Proof.
  intros Hget Hpad Hside. repeat split.
  - rewrite (getattr_setattr_other _ _ _ _ "pad_token" _ Hside) by done.
    by apply (getattr_setattr_same _ _ _ _ _ Hpad).
  - rewrite (getattr_setattr_other _ _ _ _ "eos_token" _ Hside) by done.
    by rewrite (getattr_setattr_other _ _ _ _ "eos_token" _ Hpad).
  - by apply (getattr_setattr_same _ _ _ _ _ Hside).
Qed.

Lemma run_tokenizer_fixed args hp w :
  each_after (tokenizer_fixed args) [] (trace_of (exec world (run args) hp w)).
Proof.
  run_cases world args.
  all: repeat split; try (intros [=]; fail).
  all: intros _; eexists _, _, [_; _], _; split; [reflexivity|].
  all: split; [reflexivity|]; split; intros [=].
  all: try (split; [reflexivity|]; split; [reflexivity|]; by eapply tokenizer_fix_store).
  all: reflexivity.
Qed.

(** C9: whatever the command line, when the dataset is preprocessed and
    when the trainer is constructed, the tokenizer they receive has been
    fixed before: its [pad_token] was set to the value read from its
    [eos_token] and its [padding_side] to "right"; the dataset call
    sees exactly that in the store. *)
Theorem tokenizer_fixed_before_use py argv args hp w l ev r :
  Argparse.parse_args py argv = Argparse.Parsed args ->
  trace_of (exec world (main py argv) hp w) = l ++ ev :: r ->
  tokenizer_fixed args l ev.
Proof.
  intros Hparse. rewrite (main_parsed _ _ _ Hparse). intros Htr.
  exact (each_after_split _ [] _ (run_tokenizer_fixed args hp w) l ev r Htr).
Qed.
End Tokenizer.

(** ** The profiler is optional *)

Section Profiler.
Context {W : Type}.
Variable world : action -> gmap positive (gmap string value) -> W ->
                 (value + exn) * gmap positive (gmap string value) * W.


End Profiler.

(** ** Defaults *)

(** C4: an option absent from a command line that parses has its
    default: 8 for [--batch_size], false for [--load_in_8bit], ["tmp"] for
    [--output_dir], the CodeLlama 7b checkpoint for [--model_id], the
    [cmg_allinone] dataset for [--dataset_id] and 0.5 for [--alpha]; the
    empty command line parses, to exactly these. *)
Theorem defaults_when_omitted py argv args :
  Argparse.parse_args py argv = Argparse.Parsed args ->
  (Argparse.omits py Argparse.opt_batch_size argv = true -> batch_size args = 8%Z)
  /\ (Argparse.omits py Argparse.opt_load_in_8bit argv = true -> load_in_8bit args = false)
  /\ (Argparse.omits py Argparse.opt_output_dir argv = true -> output_dir args = "tmp")
  /\ (Argparse.omits py Argparse.opt_model_id argv = true ->
      model_id args = "codellama/CodeLlama-7b-hf")
  /\ (Argparse.omits py Argparse.opt_dataset_id argv = true ->
      dataset_id args = "zhaospei/cmg_allinone")
  /\ (Argparse.omits py Argparse.opt_alpha argv = true -> alpha args = 0.5%float)
  /\ Argparse.parse_args py [] =
     Argparse.Parsed (mkNamespace 8 false "tmp" "codellama/CodeLlama-7b-hf"
                                  "zhaospei/cmg_allinone" 0.5%float).
Proof.
  intros Hparse.
  repeat split; try reflexivity; intros Ho; symmetry.
  - exact (ArgparseFacts.parse_keeps_omitted py Argparse.opt_batch_size argv _ _ Hparse Ho).
  - exact (ArgparseFacts.parse_keeps_omitted py Argparse.opt_load_in_8bit argv _ _ Hparse Ho).
  - exact (ArgparseFacts.parse_keeps_omitted py Argparse.opt_output_dir argv _ _ Hparse Ho).
  - exact (ArgparseFacts.parse_keeps_omitted py Argparse.opt_model_id argv _ _ Hparse Ho).
  - exact (ArgparseFacts.parse_keeps_omitted py Argparse.opt_dataset_id argv _ _ Hparse Ho).
  - exact (ArgparseFacts.parse_keeps_omitted py Argparse.opt_alpha argv _ _ Hparse Ho).
Qed.

(** ** The theorems at work in the sample environment *)





Lemma exceptions_propagate_witness :
  let world := Sample.failing "get_preprocessed_data" Witness.no_dataset in
  let tr := trace_of (exec world (main Sample.py []) ∅ 1%positive) in
  (exists ev, tr !! 5%nat = Some ev /\ failed ev = Some Witness.no_dataset)
  /\ outcome_of (exec world (main Sample.py []) ∅ 1%positive) = Raised Witness.no_dataset.
Proof.
  cbv zeta.
  set (world := Sample.failing "get_preprocessed_data" Witness.no_dataset).
  set (tr := trace_of (exec world (main Sample.py []) ∅ 1%positive)).
  set (ev := default (EGet VNone "" (inl VNone)) (tr !! 5%nat)).
  assert (Hev : tr !! 5%nat = Some ev) by (vm_compute; reflexivity).
  assert (Hfailed : failed ev = Some Witness.no_dataset) by (vm_compute; reflexivity).
  split; [by exists ev|].
  apply (exceptions_propagate world Sample.py [] Argparse.defaults (main Sample.py [])
           ∅ 1%positive (take 5 tr) ev [] Witness.no_dataset).
  - by right.
  - vm_compute. reflexivity.
  - exact Hfailed.
Defined.


Lemma configuration_is_fixed_witness :
  Argparse.parse_args Sample.py ["--batch_size"; "1"; "--alpha"; "1"; "--l"]
  = Argparse.Parsed (mkNamespace 1 true "tmp" "codellama/CodeLlama-7b-hf"
                                 "zhaospei/cmg_allinone" 1%float)
  /\ Forall (fun c => lookup_kw "output_rationale" (kwds c) = Some (VBool false))
       (calls_to "DualObjectiveTrainer"
          (trace_of (exec Sample.world
                       (main Sample.py ["--batch_size"; "1"; "--alpha"; "1"; "--l"])
                       ∅ 1%positive))).
Proof.
  split; [reflexivity|].
  apply (configuration_is_fixed Sample.world Sample.py
           ["--batch_size"; "1"; "--alpha"; "1"; "--l"]
           (mkNamespace 1 true "tmp" "codellama/CodeLlama-7b-hf"
                        "zhaospei/cmg_allinone" 1%float) ∅ 1%positive).
  reflexivity.
Defined.

Lemma tokenizer_fixed_before_use_witness :
  let tr := trace_of (exec Sample.world (main Sample.py []) ∅ 1%positive) in
  exists ev, tr !! 5%nat = Some ev /\ tokenizer_fixed Argparse.defaults (take 5 tr) ev.
Proof.
  cbv zeta.
  set (tr := trace_of (exec Sample.world (main Sample.py []) ∅ 1%positive)).
  set (ev := default (EGet VNone "" (inl VNone)) (tr !! 5%nat)).
  exists ev. split; [vm_compute; reflexivity|].
  apply (tokenizer_fixed_before_use Sample.world Sample.py [] Argparse.defaults ∅ 1%positive
           (take 5 tr) ev (drop 6 tr)).
  - reflexivity.
  - vm_compute. reflexivity.
Defined.

Lemma defaults_when_omitted_witness :
  Argparse.parse_args Sample.py ["--batch_size"; "4"; "--load_in_8bit"]
  = Argparse.Parsed (mkNamespace 4 true "tmp" "codellama/CodeLlama-7b-hf"
                                 "zhaospei/cmg_allinone" 0.5%float)
  /\ Argparse.omits Sample.py Argparse.opt_alpha ["--batch_size"; "4"; "--load_in_8bit"] = true
  /\ alpha (mkNamespace 4 true "tmp" "codellama/CodeLlama-7b-hf"
                        "zhaospei/cmg_allinone" 0.5%float) = 0.5%float.
Proof.
  split; [reflexivity|]. split; [reflexivity|].
  apply (defaults_when_omitted Sample.py ["--batch_size"; "4"; "--load_in_8bit"]
           (mkNamespace 4 true "tmp" "codellama/CodeLlama-7b-hf"
                        "zhaospei/cmg_allinone" 0.5%float)).
  - reflexivity.
  - reflexivity.
Defined.

(** * More properties of the script *)

(** ** Exceptions come from operations *)

Lemma explained_raised {A B : Type} tr e :
  explained tr (@Raised A e) -> explained tr (@Raised B e).
Proof. done. Qed.

Lemma explained_cons {A : Type} ev tr (o : outcome A) :
  failed ev = None -> explained tr o -> explained (ev :: tr) o.
Proof.
  intros Hev. destruct o as [a|e]; simpl.
  - by constructor.
  - intros (l & ev' & -> & Hl & Hev'). exists (ev :: l), ev'. repeat split; [|done].
    by constructor.
Qed.

Lemma explained_app {A B : Type} tr1 tr2 (a : A) (o : outcome B) :
  explained tr1 (Returned a) -> explained tr2 o -> explained (tr1 ++ tr2) o.
Proof.
  simpl. induction 1 as [|ev tr1 Hev _ IH]; [done|].
  intros H. simpl. apply explained_cons; auto.
Qed.

Lemma explained_last {A : Type} ev e :
  failed ev = Some e -> explained [ev] (@Raised A e).
Proof. intros Hev. exists [], ev. by repeat split. Qed.

Section Origin.
Context {W : Type}.
Variable world : action -> gmap positive (gmap string value) -> W ->
                 (value + exn) * gmap positive (gmap string value) * W.

Lemma throws_nothing_sound {A : Type} (p : Prog A) hp w :
  throws_nothing p ->
  explained (trace_of (exec world p hp w)) (outcome_of (exec world p hp w)).
Proof.
  revert hp w.
  induction p as [A a|A e|A c k IH|A m ns k IH|A o n k IH|A o n v k IH|A cm body IHb k IH];
    intros hp w Hp; simpl in *; try done.
  - destruct (world (ACall c) hp w) as [[[v|e] hp'] w']; [|by apply explained_last].
    specialize (IH v hp' w' (Hp v)). destruct (exec world (k v) hp' w') as [[tr s] o].
    by apply explained_cons.
  - destruct (world (AImport m ns) hp w) as [[[v|e] hp'] w']; [|by apply explained_last].
    specialize (IH hp' w' Hp). destruct (exec world k hp' w') as [[tr s] o].
    by apply explained_cons.
  - destruct (getattr hp o n) as [v|e]; [|by apply explained_last].
    specialize (IH v hp w (Hp v)). destruct (exec world (k v) hp w) as [[tr s] out].
    by apply explained_cons.
  - destruct (setattr hp o n v) as [hp'|e]; [|by apply explained_last].
    specialize (IH hp' w Hp). destruct (exec world k hp' w) as [[tr s] out].
    by apply explained_cons.
  - destruct Hp as (-> & Hb & Hk).
    specialize (IHb hp w Hb).
    destruct (exec world body hp w) as [[tr1 [hp1 w1]] o1].
    destruct o1 as [[]|e1]; [|exact IHb].
    specialize (IH hp1 w1 Hk).
    destruct (exec world k hp1 w1) as [[tr2 s] o2].
    unfold trace_of, outcome_of in *; simpl in *.
    by apply (explained_app _ _ tt).
Qed.

Lemma run_throws_nothing args : throws_nothing (run args).
Proof.
  unfold run, run_with, enable_profiler.
  destruct args as [bs [] od mi di al]; simpl; repeat (split || intros ?).
Qed.

(** X1: [run] raises nothing of its own.  It returns exactly when every
    operation succeeded, and what it raises is the exception of its last
    operation, all earlier ones having succeeded.  [main] adds one case:
    [SystemExit] from the parser, before any operation. *)
Theorem exceptions_come_from_operations py argv args hp w :
  let r := exec world (run args) hp w in
  let m := exec world (main py argv) hp w in
  (outcome_of r = Returned tt <-> Forall (fun ev => failed ev = None) (trace_of r))
  /\ (forall e, outcome_of r = Raised e ->
      exists l ev, trace_of r = l ++ [ev]
                   /\ Forall (fun ev => failed ev = None) l /\ failed ev = Some e)
  /\ (forall e, outcome_of m = Raised e ->
      (Argparse.parse_args py argv = Argparse.ParserExit /\ e = SystemExit /\ trace_of m = [])
      \/ exists l ev, trace_of m = l ++ [ev]
                      /\ Forall (fun ev => failed ev = None) l /\ failed ev = Some e).
Proof.
  cbv zeta.
  pose proof (throws_nothing_sound (run args) hp w (run_throws_nothing args)) as Hrun.
  split; [|split].
  - revert Hrun. generalize (exec world (run args) hp w). intros [[tr s] [[]|e]].
    all: unfold explained, trace_of, outcome_of; simpl.
    + done.
    + intros (l & ev & -> & _ & Hev). split; [done|].
      intros [_ Hlast]%Forall_app. inversion Hlast; subst. congruence.
  - revert Hrun. generalize (exec world (run args) hp w). intros [[tr s] [[]|e']].
    all: unfold explained, trace_of, outcome_of; simpl.
    + done.
    + by intros H e [= <-].
  - intros e. unfold main. destruct (Argparse.parse_args py argv) as [ns|].
    + pose proof (throws_nothing_sound (run ns) hp w (run_throws_nothing ns)) as Hns.
      revert Hns. generalize (exec world (run ns) hp w). intros [[tr s] [[]|e']].
      all: unfold explained, trace_of, outcome_of; simpl.
      * done.
      * intros H [= <-]. by right.
    + simpl. intros [= <-]. by left.
Qed.
End Origin.

(** ** The tokenizer fix touches nothing else *)

Lemma run_with_fix_tokenizer ep args :
  run_with ep args =
  (tokenizer ← invoke (Fn "CodeLlamaTokenizer.from_pretrained") [VStr (model_id args)] [];
   model ← invoke (Fn "AutoModelForCausalLM.from_pretrained") [VStr (model_id args)]
     [("load_in_8bit", VBool (load_in_8bit args)); ("device_map", VStr "auto");
      ("torch_dtype", VAttr "torch.float16")];
   fix_tokenizer tokenizer;;
   train_dataset ← invoke (Fn "get_preprocessed_data")
     [VStr (dataset_id args); tokenizer; VStr "train"] [];
   invoke (Method model "train") [] [];;
   '(model, lora_config) ← create_peft_config args model;
   let config := config args lora_config in
   '(profiler, total_steps, profiler_callback) ← set_up_profiler ep args;
   max_steps ← (if ep then local "total_steps" total_steps else mret (VInt (-1)));
   training_args ← invoke (Fn "TrainingArguments") [] (training_kwargs args max_steps config);
   data_collator ← invoke (Fn "DualObjectiveDataCollator") [] [];
   with_ profiler (
     callbacks ← (if ep
                  then cb ← local "profiler_callback" profiler_callback; mret (VList [cb])
                  else mret (VList []));
     trainer ← invoke (Fn "DualObjectiveTrainer") []
       [("alpha", VFloat (alpha args)); ("output_rationale", VBool false);
        ("model", model); ("args", training_args); ("tokenizer", tokenizer);
        ("train_dataset", train_dataset); ("data_collator", data_collator);
        ("callbacks", callbacks)];
     invoke (Method trainer "train") [] [];;
     mret tt);;
   invoke (Method model "save_pretrained") [VStr (output_dir args)] [];;
   mret tt).
Proof. reflexivity. Qed.

Section Frame.
Context {W : Type}.
Variable world : action -> gmap positive (gmap string value) -> W ->
                 (value + exn) * gmap positive (gmap string value) * W.

End Frame.

(** ** What is loaded, and what the trainer trains on *)

Section Loading.
Context {W : Type}.
Variable world : action -> gmap positive (gmap string value) -> W ->
                 (value + exn) * gmap positive (gmap string value) * W.






End Loading.

(** ** More on the command line *)

Module CommandLine.
Import Argparse.

Section Parsing.
Variable py : builtins.

Lemma is_value_selects o v : is_value py v = true -> selects py o v = false.
Proof.
  unfold is_value, selects. intros [_ H]%andb_prop.
  by destruct (parse_optional py v).
Qed.

Lemma is_value_acceptable v : is_value py v = true -> acceptable py v = true.
Proof.
  unfold is_value, acceptable. intros [-> H]%andb_prop.
  by destruct (parse_optional py v).
Qed.

Lemma store_load_in_8bit o s ns ns' :
  store py o s ns = Some ns' -> load_in_8bit ns' = load_in_8bit ns.
Proof.
  intros H. symmetry.
  destruct o; try discriminate H.
  all: exact (ArgparseFacts.store_same_field py opt_load_in_8bit _ s ns ns' H eq_refl).
Qed.

(** The flag is set exactly when some argument selects it. *)
Lemma parse_load_in_8bit argv : forall ns0 ns,
  parse_known_args py ns0 argv = Parsed ns ->
  load_in_8bit ns = load_in_8bit ns0 || negb (omits py opt_load_in_8bit argv).
Proof.
  induction argv as [| a | a b l IHl IHbl] using pair_induction; intros ns0 ns.
  - simpl. intros [= <-]. by rewrite orb_false_r.
  - cbn [parse_known_args omits forallb]. destruct (String.eqb a "--"); [discriminate|].
    unfold selects. destruct (parse_optional py a) as [|o' ex| |]; try discriminate.
    destruct o', ex; try discriminate; cbn [opt_eqb negb andb].
    all: try (destruct (store py _ _ ns0) as [ns'|] eqn:Es; [|discriminate];
              intros [= <-]; rewrite orb_false_r; by eapply store_load_in_8bit).
    intros [= <-]. by rewrite orb_true_r.
  - cbn [parse_known_args omits forallb]. destruct (String.eqb a "--"); [discriminate|].
    unfold selects at 1. destruct (parse_optional py a) as [|o' ex| |]; try discriminate.
    fold (omits py opt_load_in_8bit l).
    destruct o', ex; try discriminate; cbn [opt_eqb negb andb].
    all: try (destruct (store py _ _ ns0) as [ns'|] eqn:Es; [|discriminate];
              intros Hp; rewrite (IHbl _ _ Hp); cbn [omits forallb];
              by rewrite (store_load_in_8bit _ _ _ _ Es)).
    all: try (destruct (is_value py b) eqn:Hb; [|discriminate];
              destruct (store py _ _ ns0) as [ns'|] eqn:Es; [|discriminate];
              intros Hp; rewrite (IHl _ _ Hp);
              rewrite (is_value_selects _ _ Hb); cbn [negb andb];
              by rewrite (store_load_in_8bit _ _ _ _ Es)).
    intros Hp. rewrite (IHbl _ _ Hp). by rewrite !orb_true_r.
Qed.

(** A command line that parses contains only acceptable strings. *)
Lemma parse_all_acceptable argv : forall ns0 ns,
  parse_known_args py ns0 argv = Parsed ns -> forallb (acceptable py) argv = true.
Proof.
  induction argv as [| a | a b l IHl IHbl] using pair_induction; intros ns0 ns.
  - done.
  - cbn [parse_known_args forallb]. unfold acceptable.
    destruct (String.eqb a "--"); [discriminate|].
    destruct (parse_optional py a) as [|o' ex| |]; try discriminate.
    by destruct o', ex.
  - cbn [parse_known_args forallb]. unfold acceptable at 1.
    destruct (String.eqb a "--"); [discriminate|].
    destruct (parse_optional py a) as [|o' ex| |]; try discriminate.
    destruct o', ex; try discriminate; cbn [opt_eqb negb andb].
    all: try (destruct (store py _ _ ns0) as [ns'|] eqn:Es; [|discriminate];
              intros Hp; exact (IHbl _ _ Hp)).
    all: try (destruct (is_value py b) eqn:Hb; [|discriminate];
              destruct (store py _ _ ns0) as [ns'|] eqn:Es; [|discriminate];
              intros Hp; rewrite (is_value_acceptable _ Hb); exact (IHl _ _ Hp)).
    intros Hp. exact (IHbl _ _ Hp).
Qed.

Lemma parse_optional_plain a :
  String.prefix "-" a = false -> parse_optional py a = Positional.
Proof.
  destruct a as [|c a']; [done|]. unfold parse_optional.
  cbn [String.prefix]. destruct (ascii_dec "-" c) as [<-|Hc]; [by destruct a'|].
  intros _. destruct (Ascii.eqb_spec c "-"%char) as [->|_]; [done|]. reflexivity.
Qed.

Lemma parse_rejects_leading_value a rest ns0 :
  String.prefix "-" a = false -> parse_known_args py ns0 (a :: rest) = ParserExit.
Proof.
  intros Ha. cbn [parse_known_args].
  destruct (String.eqb a "--"); [done|]. by rewrite (parse_optional_plain _ Ha).
Qed.
End Parsing.

Lemma prefix_prefixes s os :
  String.prefix s os = true -> s = "" \/ In s (prefixes os).
Proof.
  revert s. induction os as [|c os IH]; intros [|a s]; simpl; auto; try discriminate.
  destruct (ascii_dec a c) as [->|]; [|discriminate].
  intros [->|Hin]%IH; right; [by left|]. right. by apply in_map.
Qed.
End CommandLine.

(** X6: [--load_in_8bit] is a pure switch: after a successful parse
    the flag is set exactly when some argument string selects the
    option, by its name or by an abbreviation of it. *)
Theorem load_in_8bit_iff_selected py argv args :
  Argparse.parse_args py argv = Argparse.Parsed args ->
  load_in_8bit args = negb (Argparse.omits py Argparse.opt_load_in_8bit argv).
Proof.
  intros Hparse. exact (CommandLine.parse_load_in_8bit py argv _ _ Hparse).
Qed.

(** X7: every long option can be abbreviated without ambiguity: a
    prefix of at least three characters of an option's name (two dashes
    and a letter) selects that option and no other. *)
Theorem abbreviations_are_unambiguous py os o s :
  In (os, o) Argparse.option_string_actions ->
  os <> "-h" ->
  String.prefix s os = true ->
  (3 <= String.length s)%nat ->
  Argparse.parse_optional py s = Argparse.Optional o None.
Proof.
  intros Hin Hos Hpre Hlen.
  apply CommandLine.prefix_prefixes in Hpre as [->|Hs]; [simpl in Hlen; lia|].
  simpl in Hin.
  repeat (destruct Hin as [[= <- <-]|Hin]); try done.
  all: simpl in Hs.
  all: repeat (destruct Hs as [<-|Hs]; [first [reflexivity|simpl in Hlen; lia]|]); done.
Qed.

Section Rejection.
Context {W : Type}.
Variable world : action -> gmap positive (gmap string value) -> W ->
                 (value + exn) * gmap positive (gmap string value) * W.

Lemma main_parser_exit py argv hp w :
  Argparse.parse_args py argv = Argparse.ParserExit ->
  exec world (main py argv) hp w = ([], (hp, w), Raised SystemExit).
Proof. unfold main. by intros ->. Qed.

(** X8: a command line is refused before anything is loaded, with
    [SystemExit], no operation performed and the store untouched, when it
    asks for help ([-h], [--help]), contains ["--"] or a string that is
    neither a plain value nor an option of the parser, or starts with a
    string that is not an option. *)
Theorem rejected_command_line_loads_nothing py argv hp w :
  In "-h" argv \/ In "--help" argv \/ In "--" argv
  \/ (exists a, In a argv /\ acceptable py a = false)
  \/ (exists a rest, argv = a :: rest /\ String.prefix "-" a = false) ->
  exec world (main py argv) hp w = ([], (hp, w), Raised SystemExit).
Proof.
  intros H. apply main_parser_exit.
  destruct (Argparse.parse_args py argv) as [ns|] eqn:Hparse; [exfalso|done].
  assert (Hall := CommandLine.parse_all_acceptable py argv _ _ Hparse).
  rewrite forallb_forall in Hall.
  destruct H as [H|[H|[H|[(a & H & Ha)|(a & rest & -> & Ha)]]]].
  - by specialize (Hall _ H).
  - by specialize (Hall _ H).
  - by specialize (Hall _ H).
  - specialize (Hall _ H). congruence.
  - unfold Argparse.parse_args in Hparse.
    by rewrite CommandLine.parse_rejects_leading_value in Hparse.
Qed.

(** X9: a number that does not convert is refused before anything is
    loaded: when the command line ends with [--batch_size s] and [int(s)]
    fails, or with [--alpha s] and [float(s)] fails, [main] raises
    [SystemExit] without performing any operation. *)
Theorem invalid_number_is_rejected py pre flag s hp w :
  (flag = "--batch_size" /\ py_int py s = None)
  \/ (flag = "--alpha" /\ py_float py s = None) ->
  exec world (main py (pre ++ [flag; s])) hp w = ([], (hp, w), Raised SystemExit).
Proof.
  intros H. apply main_parser_exit.
  destruct (Argparse.parse_args py (pre ++ [flag; s])) as [ns|] eqn:Hparse; [exfalso|done].
  destruct H as [[-> Hs]|[-> Hs]].
  - pose proof (ArgparseFacts.parse_last_wins py "--batch_size" Argparse.opt_batch_size
                  s pre _ _ eq_refl eq_refl Hparse) as H. simpl in H. congruence.
  - pose proof (ArgparseFacts.parse_last_wins py "--alpha" Argparse.opt_alpha
                  s pre _ _ eq_refl eq_refl Hparse) as H. simpl in H. congruence.
Qed.
End Rejection.

(** ** The profiler, when enabled *)

Lemma each_before_split P tr :
  each_before P tr -> forall l ev r, tr = l ++ ev :: r -> P ev r.
Proof.
  induction tr as [|x tr IH]; intros H l ev r E.
  - destruct l; discriminate.
  - destruct H as [Hx Hrest]. destruct l as [|y l]; simpl in E; injection E as ? ?; subst.
    + done.
    + eauto.
Qed.

(** Symbolic execution of [run_with true]: as [run_cases], and split on
    what [torch.profiler.profile] returned, and on the
    truth of what [__exit__] returns. *)
Ltac profiled_step wd :=
  first
    [ match goal with
      | |- context [wd (ACall (Call (Fn "torch.profiler.profile") ?a ?kw)) ?hp ?w] =>
          destruct (wd (ACall (Call (Fn "torch.profiler.profile") a kw)) hp w)
            as [[[[]|?e] ?hp] ?w]
      end; simpl
    | exec_step wd
    | match goal with
      | |- context [truthy ?v] =>
          let E := fresh "Etruthy" in destruct (truthy v) eqn:E; simpl
      end ].

Ltac profiled_cases wd args :=
  match goal with
  | |- context [exec wd (run_with true args) ?hp ?w] =>
      let r := fresh "r" in
      let Er := fresh "Er" in
      remember (exec wd (run_with true args) hp w) as r eqn:Er; revert Er;
      unfold run_with;
      destruct args as [bs [] od mi di al]; simpl; repeat (profiled_step wd);
      intros ->; cbn
  end.

Section Profiled.
Context {W : Type}.
Variable world : action -> gmap positive (gmap string value) -> W ->
                 (value + exn) * gmap positive (gmap string value) * W.

Lemma run_profiled args hp w :
  let tr := trace_of (exec world (run_with true args) hp w) in
  each_before exited_after tr /\ each_after callback_attached [] tr.
Proof.
  cbv zeta. profiled_cases world args.
  all: split.
  all: repeat match goal with
       | |- True => exact I
       | |- _ /\ _ => split
       | |- _ = true -> _ => let H := fresh in intros H; try discriminate H
       end.
  all: try (first
    [ eexists [_], _, _, _, _; split; [reflexivity|]
    | eexists [_; _], _, _, _, _; split; [reflexivity|] ];
    split; [by eexists|]; split; [reflexivity|]; split; [by eexists|];
    intros Hrest; first [done|eexists; split; [reflexivity|]; by auto]).
  all: eexists; split; [reflexivity|]; split; [reflexivity|];
       first [by left|right; by eexists _, _].
Qed.

(** X10: with the profiler enabled, a profiler that was entered is
    always exited: after the trainer was constructed and trained, or after
    either of them raised, [__exit__] is called once, with the exception
    if there was one; the model is saved afterwards only when the exit
    returned, and nothing had been raised or the exit swallowed it. *)
Theorem profiler_is_always_exited args hp w l ev r :
  trace_of (exec world (run_with true args) hp w) = l ++ ev :: r ->
  exited_after ev r.
Proof.
  intros Htr.
  exact (each_before_split _ _ (proj1 (run_profiled args hp w)) l ev r Htr).
Qed.

(** X11: with the profiler enabled, the trainer gets exactly one
    callback, a [ProfilerCallback] on the profiler that
    [torch.profiler.profile] returned, which is the object the [with]
    statement has just entered; and each [on_step_end] of that callback,
    whatever its arguments, makes one call, [step()] on that profiler,
    returns [None], and lets an exception of [step] through. *)
Theorem callback_steps_entered_profiler args hp w l ev r :
  trace_of (exec world (run_with true args) hp w) = l ++ ev :: r ->
  callback_attached l ev
  /\ forall profiler a kw hp' w',
       exec world (on_step_end (ProfilerCallback profiler) a kw) hp' w'
       = let '(res, hp'', w'') := world (ACall (Call (Method profiler "step") [] [])) hp' w' in
         ([EAct (ACall (Call (Method profiler "step") [] [])) hp' res], (hp'', w''),
          match res with inl _ => Returned VNone | inr e => Raised e end).
Proof.
  intros Htr. split.
  - exact (each_after_split _ [] _ (proj2 (run_profiled args hp w)) l ev r Htr).
  - intros profiler a kw hp' w'. simpl.
    by destruct (world (ACall (Call (Method profiler "step") [] [])) hp' w') as [[[v|e] ?] ?].
Qed.

(** X12: no call of the script repeats a keyword: in particular the
    entries of [config] expanded into [TrainingArguments(...)] never
    collide with the keywords written out, with the profiler enabled or
    not. *)
Theorem no_repeated_keyword ep args hp w :
  Forall (fun c => NoDup (kwds c).*1)
         (calls (trace_of (exec world (run_with ep args) hp w))).
Proof.
  apply always_sound. unfold run_with.
  destruct ep, args as [bs [] od mi di al]; simpl; repeat (split || intros ?).
  all: by apply (bool_decide_unpack _).
Qed.
End Profiled.


(** ** Composing command lines *)

(** Options are processed from left to right: after a part that parses
    on its own, the rest is parsed from the namespace that part gave. *)
Lemma parse_known_args_app py pre rest : forall ns0 ns1,
  Argparse.parse_known_args py ns0 pre = Argparse.Parsed ns1 ->
  Argparse.parse_known_args py ns0 (pre ++ rest) = Argparse.parse_known_args py ns1 rest.
Proof.
  induction pre as [| a | a b l IHl IHbl] using pair_induction; intros ns0 ns1.
  - simpl. by intros [= <-].
  - change ([a] ++ rest) with (a :: rest). cbn [Argparse.parse_known_args].
    destruct (String.eqb a "--"); [discriminate|].
    destruct (Argparse.parse_optional py a) as [|o' ex| |]; try discriminate.
    destruct o', ex; try discriminate.
    all: try (destruct (Argparse.store py _ _ ns0) as [ns'|]; [|discriminate]).
    all: by intros [= <-].
  - change ((a :: b :: l) ++ rest) with (a :: b :: (l ++ rest)).
    cbn [Argparse.parse_known_args].
    destruct (String.eqb a "--"); [discriminate|].
    destruct (Argparse.parse_optional py a) as [|o' ex| |]; try discriminate.
    destruct o', ex; try discriminate.
    all: try (destruct (Argparse.store py _ _ ns0) as [ns'|]; [apply IHbl|discriminate]).
    all: try (destruct (Argparse.is_value py b); [|discriminate];
              destruct (Argparse.store py _ _ ns0) as [ns'|]; [apply IHl|discriminate]).
    apply IHbl.
Qed.

(** X13: command lines compose.  If [pre] parses on its own, then
    [pre ++ rest] parses as [rest] does from the namespace [pre] gave: an
    option given again overrides the earlier value, and everything [rest]
    does not mention keeps the value [pre] gave it. *)
Theorem command_lines_compose py pre rest ns1 :
  Argparse.parse_args py pre = Argparse.Parsed ns1 ->
  Argparse.parse_args py (pre ++ rest) = Argparse.parse_known_args py ns1 rest
  /\ forall ns o,
       Argparse.parse_args py (pre ++ rest) = Argparse.Parsed ns ->
       Argparse.omits py o rest = true ->
       Argparse.same_field o ns1 ns.
Proof.
  intros Hpre. unfold Argparse.parse_args in *.
  rewrite (parse_known_args_app py pre rest _ _ Hpre). split; [done|].
  intros ns o Hns Ho. exact (ArgparseFacts.parse_keeps_omitted py o rest _ _ Hns Ho).
Qed.


(** ** No function is called twice *)

Section Once.
Context {W : Type}.
Variable world : action -> gmap positive (gmap string value) -> W ->
                 (value + exn) * gmap positive (gmap string value) * W.

Lemma run_functions_prefix args hp w :
  functions_called (trace_of (exec world (run args) hp w))
  `prefix_of` run_functions (load_in_8bit args).
Proof. run_cases world args. all: by eexists. Qed.

(** X15: whatever happens, a run calls no function of the external
    packages twice: the tokenizer, the model, the dataset, the LoRA
    configuration, the training arguments, the collator and the trainer
    are each built at most once. *)
Theorem no_function_called_twice py argv f hp w :
  let tr := trace_of (exec world (main py argv) hp w) in
  NoDup (functions_called tr) /\ (length (calls_to f tr) <= 1)%nat.
Proof.
  cbv zeta.
  assert (Hnodup : NoDup (functions_called (trace_of (exec world (main py argv) hp w)))).
  { unfold main. destruct (Argparse.parse_args py argv) as [args|]; [|constructor].
    destruct (run_functions_prefix args hp w) as [k Hk].
    assert (Hall : NoDup (run_functions (load_in_8bit args)))
      by (destruct (load_in_8bit args); by apply (bool_decide_unpack _)).
    rewrite Hk in Hall. by apply NoDup_app in Hall as [? _]. }
  split; [done|].
  rewrite length_calls_to.
  induction Hnodup as [|g l Hg Hl IH]; simpl; [lia|].
  destruct (String.eqb_spec f g) as [<-|Hne]; simpl; [|done].
  assert (List.filter (String.eqb f) l = []) as ->; [|simpl; lia].
  clear -Hg. induction l as [|x l IH]; simpl; [done|].
  destruct (String.eqb_spec f x) as [->|]; [set_solver|]. apply IH. set_solver.
Qed.
End Once.

(** ** More of the theorems at work in the sample environment *)




Lemma load_in_8bit_iff_selected_witness :
  Argparse.parse_args Sample.py ["--batch_size"; "4"; "--load"]
  = Argparse.Parsed (mkNamespace 4 true "tmp" "codellama/CodeLlama-7b-hf"
                                 "zhaospei/cmg_allinone" 0.5%float)
  /\ true = negb (Argparse.omits Sample.py Argparse.opt_load_in_8bit
                                 ["--batch_size"; "4"; "--load"]).
Proof.
  split; [reflexivity|].
  apply (load_in_8bit_iff_selected Sample.py ["--batch_size"; "4"; "--load"]
           (mkNamespace 4 true "tmp" "codellama/CodeLlama-7b-hf"
                        "zhaospei/cmg_allinone" 0.5%float)).
  reflexivity.
Defined.

Lemma abbreviations_are_unambiguous_witness :
  Argparse.parse_optional Sample.py "--out" = Argparse.Optional Argparse.opt_output_dir None.
Proof.
  apply (abbreviations_are_unambiguous Sample.py "--output_dir" Argparse.opt_output_dir "--out").
  - simpl. tauto.
  - discriminate.
  - reflexivity.
  - simpl. lia.
Defined.

Lemma rejected_command_line_loads_nothing_witness :
  exec Sample.world (main Sample.py ["--output_dir"; "out"; "--help"]) ∅ 1%positive
  = ([], (∅, 1%positive), Raised SystemExit).
Proof.
  apply (rejected_command_line_loads_nothing Sample.world Sample.py
           ["--output_dir"; "out"; "--help"] ∅ 1%positive).
  right. left. simpl. tauto.
Defined.

Lemma invalid_number_is_rejected_witness :
  Sample.int "eight" = None
  /\ exec Sample.world (main Sample.py (["--load_in_8bit"] ++ ["--batch_size"; "eight"]))
          ∅ 1%positive
     = ([], (∅, 1%positive), Raised SystemExit).
Proof.
  split; [reflexivity|].
  apply (invalid_number_is_rejected Sample.world Sample.py ["--load_in_8bit"]
           "--batch_size" "eight" ∅ 1%positive).
  left. split; reflexivity.
Defined.

Lemma profiler_is_always_exited_witness :
  let tr := trace_of (exec Light.world (run_with true Argparse.defaults) ∅ 1%positive) in
  exists ev, tr !! 16%nat = Some ev /\ enters_or_exits ev = true
             /\ exited_after ev (drop 17 tr).
Proof.
  cbv zeta.
  set (tr := trace_of (exec Light.world (run_with true Argparse.defaults) ∅ 1%positive)).
  set (ev := default (EGet VNone "" (inl VNone)) (tr !! 16%nat)).
  exists ev. split; [vm_compute; reflexivity|]. split; [vm_compute; reflexivity|].
  apply (profiler_is_always_exited Light.world Argparse.defaults ∅ 1%positive (take 16 tr)).
  vm_compute. reflexivity.
Defined.

Lemma callback_steps_entered_profiler_witness :
  let tr := trace_of (exec Light.world (run_with true Argparse.defaults) ∅ 1%positive) in
  exists ev, tr !! 17%nat = Some ev /\ callback_attached (take 17 tr) ev.
Proof.
  cbv zeta.
  set (tr := trace_of (exec Light.world (run_with true Argparse.defaults) ∅ 1%positive)).
  set (ev := default (EGet VNone "" (inl VNone)) (tr !! 17%nat)).
  exists ev. split; [vm_compute; reflexivity|].
  apply (callback_steps_entered_profiler Light.world Argparse.defaults ∅ 1%positive
           (take 17 tr) ev (drop 18 tr)).
  vm_compute. reflexivity.
Defined.

Lemma command_lines_compose_witness :
  Argparse.parse_args Sample.py (["--batch_size"; "4"; "--l"] ++ ["--batch_size"; "2"])
  = Argparse.Parsed (mkNamespace 2 true "tmp" "codellama/CodeLlama-7b-hf"
                                 "zhaospei/cmg_allinone" 0.5%float).
Proof.
  apply (command_lines_compose Sample.py ["--batch_size"; "4"; "--l"] ["--batch_size"; "2"]
           (mkNamespace 4 true "tmp" "codellama/CodeLlama-7b-hf"
                        "zhaospei/cmg_allinone" 0.5%float)).
  reflexivity.
Defined.

